(** * Readily: retrieval and evidence verification (src/app.py)

    A shallow embedding of the question segmenter, the snippet selector, the
    context assembler, the answer verifier and the per-question task of
    [src/app.py], with the properties of its specification.

    Modelling conventions.
    - A Python [str] is a list of characters; a character is a code point
      below 256 (Rocq's [ascii], read as Latin-1).  On this range Python's
      [str.lower], [str.isspace], the regex classes [\s] and [\d] and the
      [re.IGNORECASE] comparison are the per-character functions below.
      Code points from 256 on (among them the typographic quotes of the
      evidence regex) are outside the model.
    - Python integers are [Z]; [len] is [length] (converted where the code
      does arithmetic with it).
    - Every regular expression of the source is compiled by hand into a
      matcher function; the comment of each matcher gives the regex and the
      reason the backtracking search of [re] reduces to it.
    - Calls that leave the process (store lookup, text search, model call)
      are fields of records and may raise: they return a [result].  The
      [print] calls are left out.
    - The iteration order of a Python [set] is a parameter of the snippet
      selector ([Selector.SetOrder]).
    - The float score of the Verifier is an exact rational.
    - The worker pool of the route is the positional [map] of the task
      over the questions: the task catches every exception, and the calls
      it makes share no state. *)

From Stdlib Require Import String DecimalString.
From Stdlib Require Import List Ascii ZArith QArith Bool Arith Lia.
Import ListNotations.
Close Scope Q_scope.

(** ** Strings *)

Definition str := list ascii.

Definition L (s : String.string) : str := String.list_ascii_of_string s.
Arguments L s%_string.

Definition nl : ascii := "010"%char.
Definition dquote : ascii := "034"%char.
Definition comma : ascii := ","%char.

Definition code (c : ascii) : nat := nat_of_ascii c.

(** [str.isspace] / regex [\s] on code points below 256:
    U+0009..U+000D, U+001C..U+001F, U+0020, U+0085, U+00A0. *)
Definition is_space (c : ascii) : bool :=
  let n := code c in
  ((9 <=? n) && (n <=? 13)) || ((28 <=? n) && (n <=? 32))
  || (n =? 133) || (n =? 160).

(** regex [\d] on code points below 256: 0..9. *)
Definition is_digit (c : ascii) : bool :=
  let n := code c in (48 <=? n) && (n <=? 57).

(** regex class [a-z]. *)
Definition is_az (c : ascii) : bool :=
  let n := code c in (97 <=? n) && (n <=? 122).

(** [str.lower] on one code point below 256: A..Z and U+00C0..U+00DE
    (except the multiplication sign U+00D7) move up by 32. *)
Definition lower_char (c : ascii) : ascii :=
  let n := code c in
  if ((65 <=? n) && (n <=? 90))
     || ((192 <=? n) && (n <=? 222) && negb (n =? 215))
  then ascii_of_nat (n + 32) else c.

Definition lower (s : str) : str := map lower_char s.

Definition ascii_eqb (a b : ascii) : bool := Ascii.eqb a b.

Fixpoint str_eqb (a b : str) : bool :=
  match a, b with
  | [], [] => true
  | x :: a', y :: b' => ascii_eqb x y && str_eqb a' b'
  | _, _ => false
  end.

Definition is_empty (s : str) : bool :=
  match s with [] => true | _ => false end.

(** Python truthiness of a string. *)
Definition truthy (s : str) : bool := negb (is_empty s).

Definition zlen (s : str) : Z := Z.of_nat (length s).

(** [s.startswith(p)]. *)
Fixpoint startswith (p s : str) : bool :=
  match p, s with
  | [], _ => true
  | x :: p', y :: s' => ascii_eqb x y && startswith p' s'
  | _ :: _, [] => false
  end.

(** [s.endswith(p)]. *)
Definition endswith (p s : str) : bool := startswith (rev p) (rev s).

Fixpoint drop_while (f : ascii -> bool) (s : str) : str :=
  match s with
  | [] => []
  | c :: r => if f c then drop_while f r else s
  end.

Fixpoint take_while (f : ascii -> bool) (s : str) : str :=
  match s with
  | [] => []
  | c :: r => if f c then c :: take_while f r else []
  end.

(** [s.strip()]. *)
Definition lstrip (s : str) : str := drop_while is_space s.
Definition rstrip (s : str) : str := rev (drop_while is_space (rev s)).
Definition strip (s : str) : str := rstrip (lstrip s).

(** [sep.join(parts)]. *)
Fixpoint join (sep : str) (parts : list str) : str :=
  match parts with
  | [] => []
  | [p] => p
  | p :: rest => p ++ sep ++ join sep rest
  end.

(** [s.find(sub)]: the lowest index at which [sub] occurs, or -1. *)
Fixpoint find_from (sub s : str) (i : nat) : option nat :=
  if startswith sub s then Some i
  else match s with
       | [] => None
       | _ :: r => find_from sub r (S i)
       end.

Definition find_opt (s sub : str) : option nat := find_from sub s 0.

Definition find (s sub : str) : Z :=
  match find_opt s sub with
  | Some i => Z.of_nat i
  | None => -1
  end.

(** [sub in s]. *)
Definition contains (s sub : str) : bool :=
  match find_opt s sub with Some _ => true | None => false end.

(** A slice [s[a:b]] with non-negative bounds, as the code uses it after
    clamping with [max(0, _)] and [min(len, _)]. *)
Definition slice (s : str) (a b : Z) : str :=
  firstn (Z.to_nat b - Z.to_nat a) (skipn (Z.to_nat a) s).

(** A slice [l[:n]] for any integer [n]: a negative [n] counts from the
    end. *)
Definition slice_to {A} (l : list A) (n : Z) : list A :=
  if (0 <=? n)%Z then firstn (Z.to_nat n) l
  else firstn (length l - Z.to_nat (- n)) l.

(** [re.sub(r"\s+", " ", s)]: every maximal run of whitespace becomes one
    space.  [in_ws] tells that the previous character was whitespace. *)
Fixpoint collapse_from (in_ws : bool) (s : str) : str :=
  match s with
  | [] => []
  | c :: r =>
      if is_space c
      then (if in_ws then collapse_from true r
            else " "%char :: collapse_from true r)
      else c :: collapse_from false r
  end.

Definition collapse_ws (s : str) : str := collapse_from false s.

(** [s.split()]: the maximal runs of non-whitespace characters.  [cur] is
    the word being read, reversed. *)
Fixpoint split_ws_from (cur : str) (s : str) : list str :=
  match s with
  | [] => match cur with [] => [] | _ => [rev cur] end
  | c :: r =>
      if is_space c
      then match cur with
           | [] => split_ws_from [] r
           | _ => rev cur :: split_ws_from [] r
           end
      else split_ws_from (c :: cur) r
  end.

Definition split_ws (s : str) : list str := split_ws_from [] s.

(** [s.split(sep)] for a one-character separator. *)
Fixpoint split_on_from (sep : ascii) (cur : str) (s : str) : list str :=
  match s with
  | [] => [rev cur]
  | c :: r =>
      if ascii_eqb c sep then rev cur :: split_on_from sep [] r
      else split_on_from sep (c :: cur) r
  end.

Definition split_on (sep : ascii) (s : str) : list str :=
  split_on_from sep [] s.

(** Decimal text of a Python integer, as an f-string prints it. *)
Definition str_of_Z (z : Z) : str :=
  L (DecimalString.NilZero.string_of_int (Z.to_int z)).

(** ** Regex building blocks *)

(** A literal under [re.IGNORECASE] (also a back-reference): the characters
    are compared after lower-casing.  Returns the rest of the subject. *)
Fixpoint lit_ci (p s : str) : option str :=
  match p, s with
  | [], _ => Some s
  | x :: p', y :: s' =>
      if ascii_eqb (lower_char x) (lower_char y) then lit_ci p' s' else None
  | _ :: _, [] => None
  end.

(** [pattern.search(s)]: the match at the leftmost start position. *)
Fixpoint re_search {A} (m : str -> option A) (s : str) : option A :=
  match m s with
  | Some a => Some a
  | None => match s with
            | [] => None
            | _ :: r => re_search m r
            end
  end.

(** The position of the first start at which [m] matches. *)
Fixpoint re_search_pos {A} (m : str -> option A) (s : str) (i : nat)
  : option (nat * A) :=
  match m s with
  | Some a => Some (i, a)
  | None => match s with
            | [] => None
            | _ :: r => re_search_pos m r (S i)
            end
  end.

(** ** Answer Verifier: [parse_gemini_response] *)

Module Verifier.

(** [re.search(r'STATUS:\s*Met', text, re.IGNORECASE)] at one start
    position.  [\s*] is greedy and the next literal starts with a
    non-space, so the whole whitespace run is consumed. *)
Definition status_at (s : str) : option unit :=
  match lit_ci (L "STATUS:") s with
  | None => None
  | Some r =>
      match lit_ci (L "Met") (drop_while is_space r) with
      | Some _ => Some tt
      | None => None
      end
  end.

(** The evidence regex, [EVIDENCE:] followed by one group of any characters
    (greedy, with [re.IGNORECASE | re.DOTALL]), at one start position;
    group 1 is the rest of the text. *)
Definition evidence_at (s : str) : option str := lit_ci (L "EVIDENCE:") s.

Definition not_dquote (c : ascii) : bool := negb (ascii_eqb c dquote).
Definition not_comma (c : ascii) : bool := negb (ascii_eqb c comma).

(** The quote regex with [re.DOTALL]: an opening double quote (straight or
    typographic), a lazy group 2 of any characters, a closing double quote
    (straight or typographic).  On code points below 256 only the straight
    double quote can open or close.  Group 2 is lazy: it runs from the
    first double quote to the next one; when the first has no successor no
    later start can match either. *)
Definition quote_match (s : str) : option str :=
  match drop_while not_dquote s with
  | [] => None
  | _ :: r =>
      match drop_while not_dquote r with
      | [] => None
      | _ :: _ => Some (take_while not_dquote r)
      end
  end.

(** The citation regex
    [\(\s*From\s+Filename:\s*([^,]+?)\s*,\s*Page:\s*(\d+)\s*\)] with
    [re.IGNORECASE], at one start position.  Every whitespace run before a
    literal is consumed whole.  The comma matched is the first one after
    [Filename:], because neither [\s*] nor [[^,]] passes a comma; [seg] is
    the text up to it.  The greedy [\s*] before the lazy group gives back
    one character only when [seg] is all whitespace, so group 1 is [seg]
    stripped, or the last character of a blank non-empty [seg]. *)
Definition cite_at (s : str) : option (str * str) :=
  match lit_ci (L "(") s with
  | None => None
  | Some s1 =>
  match lit_ci (L "From") (drop_while is_space s1) with
  | None => None
  | Some s2 =>
  if is_empty (take_while is_space s2) then None else
  match lit_ci (L "Filename:") (drop_while is_space s2) with
  | None => None
  | Some s3 =>
  let seg := take_while not_comma s3 in
  match drop_while not_comma s3 with
  | [] => None
  | _ :: s4 =>
  match lit_ci (L "Page:") (drop_while is_space s4) with
  | None => None
  | Some s5 =>
  let s6 := drop_while is_space s5 in
  let page := take_while is_digit s6 in
  if is_empty page then None else
  match lit_ci (L ")") (drop_while is_space (drop_while is_digit s6)) with
  | None => None
  | Some _ =>
      if is_empty seg then None
      else Some (if is_empty (strip seg) then [last seg " "%char]
                 else strip seg, page)
  end end end end end end.

(** *** The block scanner *)

Definition start_lit : str := L "--- START (Filename: ".
Definition end_lit : str := L "--- END (Filename: ".
Definition page_lit : str := L ", Page: ".
Definition close_lit : str := L ") ---".

(** The tail of [block_re] once groups 1 and 2 are known:
    [--- END \(Filename: \1, Page: \2\) ---]. *)
Definition end_pattern (f p : str) : str :=
  end_lit ++ f ++ page_lit ++ p ++ close_lit.

(** First offset at which the literal [pat] matches, ignoring case. *)
Fixpoint find_ci (pat s : str) (k : nat) : option nat :=
  match lit_ci pat s with
  | Some _ => Some k
  | None => match s with
            | [] => None
            | _ :: r => find_ci pat r (S k)
            end
  end.

(** [block_re] at one start position:
    [--- START \(Filename: ([^,]+), Page: (\d+)\) ---\n\n([\s\S]*?)--- END \(Filename: \1, Page: \2\) ---]
    with [re.IGNORECASE].  Group 1 must stop at the first comma and group 2
    at the first non-digit (the literal after each starts with a character
    the group excludes), so neither can backtrack; the lazy group 3 ends at
    the first offset where the END marker with the same filename and page
    matches.  Returns the three groups and the length of the match. *)
Definition block_at (s : str) : option (str * str * str * nat) :=
  match lit_ci start_lit s with
  | None => None
  | Some s1 =>
  let f := take_while not_comma s1 in
  if is_empty f then None else
  match lit_ci page_lit (drop_while not_comma s1) with
  | None => None
  | Some s2 =>
  let p := take_while is_digit s2 in
  if is_empty p then None else
  match lit_ci (close_lit ++ [nl; nl]) (drop_while is_digit s2) with
  | None => None
  | Some s3 =>
  match find_ci (end_pattern f p) s3 0 with
  | None => None
  | Some k =>
      Some (f, p, firstn k s3,
            length start_lit + length f + length page_lit + length p
            + (length close_lit + 2) + k + length (end_pattern f p))
  end end end end.

(** [block_re.finditer(context)]: matches from left to right, each search
    resuming at the end of the previous match.  [skip] counts the
    characters of the current match still to pass. *)
Fixpoint finditer_from (skip : nat) (s : str) : list (str * str * str) :=
  match s with
  | [] => []
  | _ :: r =>
      match skip with
      | S k => finditer_from k r
      | O =>
          match block_at s with
          | Some (f, p, b, n) => (f, p, b) :: finditer_from (n - 1) r
          | None => finditer_from 0 r
          end
      end
  end.

Definition finditer (context : str) : list (str * str * str) :=
  finditer_from 0 context.

(** [re.sub(r"\s+", " ", s).lower()]. *)
Definition norm (s : str) : str := lower (collapse_ws s).

(** *** Citation re-derivation *)

(** The variables the block loop updates.  The score [1.0 / (start + 1)] is
    kept as an exact rational: the float division is monotone, and strictly
    so for the positions a context of this size can have. *)
Record Best : Type := MkBest {
  best_match_score : Q;
  actual_fname : option str;
  actual_page : option str }.

Definition Qgt_bool (a b : Q) : bool := negb (Qle_bool a b).

Definition score_of (block_start : Z) : Q :=
  Qmake 1 (Z.to_pos (block_start + 1)).

(** One iteration of [for m in block_re.finditer(context)]. *)
Definition block_step (quote_text : str) (st : Best) (m : str * str * str)
  : Best :=
  let '(fname, page, block) := m in
  let norm_block := norm block in
  let norm_quote := norm quote_text in
  if truthy norm_quote && contains norm_block norm_quote then
    let block_start := find norm_block norm_quote in
    if negb (block_start =? -1)%Z then
      let score := score_of block_start in
      if Qgt_bool score (best_match_score st)
      then MkBest score (Some fname) (Some page)
      else st
    else st
  else st.

Definition opt_truthy (o : option str) : bool :=
  match o with Some s => truthy s | None => false end.

Definition opt_str (o : option str) : str :=
  match o with Some s => s | None => L "None" end.

(** The f-string [(From Filename: {f}, Page: {p}) "{q}"]. *)
Definition format_evidence (f p q : str) : str :=
  L "(From Filename: " ++ f ++ L ", Page: " ++ p ++ L ") "
    ++ [dquote] ++ q ++ [dquote].

Definition Met : str := L "Met".
Definition Not_Met : str := L "Not Met".
Definition NA : str := L "N/A".

(** [evidence_text], [quote_text] and the model's own citation, as the
    code extracts them from the response. *)
Definition evidence_text_of (g1 : str) : str := strip g1.

Definition quote_text_of (evidence_text : str) : str :=
  match quote_match evidence_text with
  | Some q => strip q
  | None => []
  end.

Definition found_of (evidence_text : str) : option str * option str :=
  match re_search cite_at evidence_text with
  | Some (f, p) => (Some (strip f), Some (strip p))
  | None => (None, None)
  end.

Definition rederive (quote_text context : str) (found : option str * option str)
  : option str * option str :=
  if truthy quote_text && truthy context then
    let st := fold_left (block_step quote_text) (finditer context)
                (MkBest (inject_Z (-1)) (fst found) (snd found)) in
    (actual_fname st, actual_page st)
  else found.

(** [parse_gemini_response(text, context)].  Its operations are total on
    strings, so the [except] branch is never entered. *)
Definition parse_gemini_response (text context : str) : str * str :=
  match re_search status_at text with
  | None => (Not_Met, NA)
  | Some _ =>
      match re_search evidence_at text with
      | None =>
          (Met, L "STATUS was 'Met' but no EVIDENCE: section was found.")
      | Some g1 =>
          let evidence_text := evidence_text_of g1 in
          if truthy evidence_text then
            let quote_text := quote_text_of evidence_text in
            let found := found_of evidence_text in
            let actual := rederive quote_text context found in
            if truthy quote_text && opt_truthy (fst actual)
               && opt_truthy (snd actual)
            then (Met, format_evidence (opt_str (fst actual))
                         (opt_str (snd actual)) quote_text)
            else if truthy quote_text && opt_truthy (fst found)
                    && opt_truthy (snd found)
            then (Met, format_evidence (opt_str (fst found))
                         (opt_str (snd found)) quote_text)
            else (Met, evidence_text)
          else (Met, L "Evidence section was found but was empty.")
      end
  end.

End Verifier.

(** ** Segmenter: [extract_questions_from_pdf] *)

Module Segmenter.

Definition has_nl (s : str) : bool := existsb (ascii_eqb nl) s.

(** [re.sub(r"-\s*\n\s*", "", text)]: a hyphen followed by a whitespace run
    that holds a newline is deleted together with the whole run (the first
    [\s*] backtracks to the last newline of the run, the second takes what
    is left of it).  [skip] counts characters of a match still to pass. *)
Fixpoint sub_hyphen (skip : nat) (s : str) : str :=
  match s with
  | [] => []
  | c :: r =>
      match skip with
      | S k => sub_hyphen k r
      | O =>
          let run := take_while is_space r in
          if ascii_eqb c "-"%char && has_nl run
          then sub_hyphen (length run) r
          else c :: sub_hyphen 0 r
      end
  end.

Definition is_join_left (c : ascii) : bool :=
  is_az c || ascii_eqb c ","%char || ascii_eqb c ";"%char.

(** [re.sub(r"([a-z,;])\s*\n\s*([a-z])", r"\1 \2", text)]: a character of
    [[a-z,;]], a whitespace run holding a newline, and a lower-case letter
    right after the run become the two characters with one space between;
    the scan resumes after the letter. *)
Fixpoint sub_soft_break (skip : nat) (s : str) : str :=
  match s with
  | [] => []
  | c :: r =>
      match skip with
      | S k => sub_soft_break k r
      | O =>
          let run := take_while is_space r in
          match drop_while is_space r with
          | c2 :: _ =>
              if is_join_left c && has_nl run && is_az c2
              then c :: " "%char :: c2 :: sub_soft_break (length run + 1) r
              else c :: sub_soft_break 0 r
          | [] => c :: sub_soft_break 0 r
          end
      end
  end.

Definition not_rparen (c : ascii) : bool := negb (ascii_eqb c ")"%char).

(** The alternation of [prefix_re], tried in order after the leading
    whitespace: a parenthesised reference (its text is at least one
    character and ends at the first closing parenthesis), then
    [yes no citation:], [yes no:], [citation:], all ignoring case.  Returns
    what follows the alternative. *)
Definition prefix_alt (s0 : str) : option str :=
  let alt1 :=
    match lit_ci (L "(") s0 with
    | None => None
    | Some s1 =>
        match lit_ci (L "reference:") (drop_while is_space s1) with
        | None => None
        | Some s3 =>
            match take_while not_rparen s3, drop_while not_rparen s3 with
            | _ :: _, _ :: rest => Some rest
            | _, _ => None
            end
        end
    end in
  let alt23 :=
    match lit_ci (L "yes") s0 with
    | None => None
    | Some s1 =>
        match lit_ci (L "no") (drop_while is_space s1) with
        | None => None
        | Some s2 =>
            match lit_ci (L "citation:") (drop_while is_space s2) with
            | Some s3 => Some s3
            | None => lit_ci (L ":") s2
            end
        end
    end in
  match alt1 with
  | Some r => Some r
  | None =>
      match alt23 with
      | Some r => Some r
      | None => lit_ci (L "citation:") s0
      end
  end.

(** [prefix_re.sub("", line)]: the pattern is anchored at the start of the
    line, so at most the one match at offset 0 is removed, with the
    whitespace around it. *)
Definition prefix_sub (line : str) : str :=
  match prefix_alt (drop_while is_space line) with
  | Some r => drop_while is_space r
  | None => line
  end.

(** [re.match(r"^\s*\d+\.", line)]. *)
Definition enum_match (line : str) : bool :=
  let s := drop_while is_space line in
  match take_while is_digit s, drop_while is_digit s with
  | _ :: _, c :: _ => ascii_eqb c "."%char
  | _, _ => false
  end.

Definition cleaned_lines_of (lines : list str) : list str :=
  filter truthy (map (fun line => strip (prefix_sub line)) lines).

Definition qmark : str := L "?".
Definition space : str := L " ".

(** [q_text] of an accumulation that ends in a question mark. *)
Definition q_text_of (current_question_lines : list str) : str :=
  strip (collapse_ws (strip (join space current_question_lines))).

(** The variables of the accumulation loop. *)
Record SegState : Type := MkSeg {
  questions : list str;
  current_question_lines : list str }.

(** One iteration of [for line in cleaned_lines].  The [elif] branch only
    prints and restarts the accumulation at this line. *)
Definition seg_step (st : SegState) (line : str) : SegState :=
  let cur := current_question_lines st ++ [line] in
  if endswith qmark line then
    let q_text := q_text_of cur in
    if (4 <? length (split_ws q_text))
    then MkSeg (questions st ++ [q_text]) []
    else MkSeg (questions st) []
  else if enum_match line && negb (match cur with [] => true | _ => false end)
  then MkSeg (questions st) [line]
  else MkSeg (questions st) cur.

Definition seg_loop (cleaned_lines : list str) : SegState :=
  fold_left seg_step cleaned_lines (MkSeg [] []).

(** The text of the pages: every page with text adds it and a newline. *)
Fixpoint full_text_of (pages : list (option str)) : str :=
  match pages with
  | [] => []
  | Some t :: rest =>
      if truthy t then t ++ [nl] ++ full_text_of rest else full_text_of rest
  | None :: rest => full_text_of rest
  end.

(** The questions of an extracted text. *)
Definition questions_of_text (full_text : str) : list str :=
  let text := sub_soft_break 0 (sub_hyphen 0 full_text) in
  let lines := split_on nl text in
  questions (seg_loop (cleaned_lines_of lines)).

(** [extract_questions_from_pdf]: [pages] is what [pdfplumber] extracts
    from each page, [None] as a whole when the file cannot be read. *)
Definition extract_questions_from_pdf (pages : option (list (option str)))
  : list str :=
  match pages with
  | None => []
  | Some ps =>
      let full_text := full_text_of ps in
      if truthy full_text then questions_of_text full_text else []
  end.

End Segmenter.

(** ** Snippet Selector: [_pick_snippets] *)

Module Selector.

Definition is_tok_char (c : ascii) : bool := is_az c || is_digit c.

(** [re.findall(r"[a-z0-9]+", s)]: the maximal runs of [[a-z0-9]]. *)
Fixpoint findall_tok (cur : str) (s : str) : list str :=
  match s with
  | [] => match cur with [] => [] | _ => [rev cur] end
  | c :: r =>
      if is_tok_char c then findall_tok (c :: cur) r
      else match cur with
           | [] => findall_tok [] r
           | _ => rev cur :: findall_tok [] r
           end
  end.

Definition _tokenize (text : str) : list str := findall_tok [] (lower text).

Definition stop : list str :=
  map L ["the"; "a"; "an"; "and"; "or"; "of"; "to"; "in"; "for"; "on"; "by";
         "with"; "is"; "are"; "be"; "as"; "at"; "that"; "this"; "it";
         "from"]%string.

Definition mem (t : str) (l : list str) : bool := existsb (str_eqb t) l.

(** The phrases in the order the code adds them to the set: for n in
    (5, 4, 3), every window of n consecutive tokens. *)
Definition phrases_added (q_toks_nostop : list str) : list str :=
  flat_map
    (fun n =>
       map (fun i => join (L " ") (firstn n (skipn i q_toks_nostop)))
           (seq 0 (length q_toks_nostop + 1 - n)))
    [5; 4; 3].

(** The order in which a Python [set] of strings is iterated is not
    fixed by the language: it follows the string hashes, which are salted
    per interpreter process.  [SetOrder] maps the sequence of [add] calls
    to the iteration sequence; a valid one lists every added element
    once. *)
Definition SetOrder : Type := list str -> list str.


Section PickSnippets.

Variable ord : SetOrder.
Variables (content question : str) (per_doc max_chars_per_snippet : Z).

(** [for ph in phrases], with [windows] carried along; the [break] returns
    at once. *)
Fixpoint windows_loop (phrases : list str) (windows : list str) : list str :=
  match phrases with
  | [] => windows
  | ph :: rest =>
      if is_empty ph then windows_loop rest windows
      else
        let idx := find (lower content) ph in
        if negb (idx =? -1)%Z then
          let start := Z.max 0 (idx - 400) in
          let end_ := Z.min (zlen content) (idx + zlen ph + 500) in
          let windows' := windows ++ [slice content start end_] in
          if (per_doc <=? Z.of_nat (length windows'))%Z then windows'
          else windows_loop rest windows'
        else windows_loop rest windows
  end.

(** [re.split(r"\n\s*\n", content)]: a newline whose following whitespace
    run holds another newline starts a separator, which reaches the last
    newline of that run. *)
Fixpoint last_nl (run : str) (i : nat) (acc : option nat) : option nat :=
  match run with
  | [] => acc
  | c :: r => last_nl r (S i) (if ascii_eqb c nl then Some i else acc)
  end.

Fixpoint split_paras (skip : nat) (cur : str) (s : str) : list str :=
  match s with
  | [] => [rev cur]
  | c :: r =>
      match skip with
      | S k => split_paras k cur r
      | O =>
          if ascii_eqb c nl then
            match last_nl (take_while is_space r) 0 None with
            | Some k => rev cur :: split_paras (S k) [] r
            | None => split_paras 0 (c :: cur) r
            end
          else split_paras 0 (c :: cur) r
      end
  end.

Definition paras_of : list str :=
  filter truthy (map strip (split_paras 0 [] content)).

(** [score(p)]: how many distinct question tokens the paragraph holds. *)
Definition score (q_toks : list str) (p : str) : nat :=
  let p_tokens := _tokenize p in
  length (filter (fun t => mem t p_tokens) (nodup (list_eq_dec ascii_dec) q_toks)).

(** [sorted(paras, key=score, reverse=True)]: stable, highest score
    first. *)
Fixpoint insert_desc (key : str -> nat) (x : str) (l : list str) : list str :=
  match l with
  | [] => [x]
  | y :: ys =>
      if key x <? key y then y :: insert_desc key x ys else x :: y :: ys
  end.

Fixpoint sorted_desc (key : str -> nat) (l : list str) : list str :=
  match l with
  | [] => []
  | x :: xs => insert_desc key x (sorted_desc key xs)
  end.

Definition _pick_snippets : list str :=
  if is_empty content then []
  else
    let q_toks := _tokenize question in
    let q_toks_nostop := filter (fun t => negb (mem t stop)) q_toks in
    let phrases := ord (phrases_added q_toks_nostop) in
    let windows := windows_loop phrases [] in
    match windows with
    | _ :: _ => map (fun w => slice_to w max_chars_per_snippet) windows
    | [] =>
        let paras := paras_of in
        match paras with
        | [] => []
        | _ =>
            let scored := sorted_desc (score q_toks) paras in
            map (fun p => slice_to p max_chars_per_snippet)
                (slice_to scored per_doc)
        end
    end.

End PickSnippets.

(** The two orders used in examples: insertion order, and its reverse. *)
Definition insertion_order : SetOrder :=
  fun l => rev (nodup (list_eq_dec ascii_dec) (rev l)).


End Selector.

(** ** The store and the model *)

Inductive result (A : Type) : Type :=
| Ok (a : A)
| Raise (msg : str).
Arguments Ok {A} a.
Arguments Raise {A} msg.

(** A stored page: a MongoDB document, each key of which may be absent. *)
Record Doc : Type := MkDoc {
  filename : option str;
  page_number : option Z;
  content : option str }.

(** [collection.find({"$text": ...}).sort(textScore)]: the pages in
    relevance order, or an exception. *)
Record Collection : Type := MkCollection {
  find_text : str -> result (list Doc) }.

(** [db[COLLECTION_NAME]]. *)
Record Database : Type := MkDatabase {
  get_collection : result Collection }.

(** [gemini_model.generate_content(prompt).text]: the response text
    (empty when there is none), or an exception. *)
Definition Model : Type := str -> result str.

(** ** Context Assembler: [find_relevant_context] *)

Module Assembler.

Import Selector.

Definition max_total : Z := 18000.

Definition get {A} (o : option A) (default : A) : A :=
  match o with Some a => a | None => default end.

Definition filename_of (doc : Doc) : str :=
  get (filename doc) (L "Unknown Document").

(** The text an f-string prints for [doc.get("page_number", "N/A")]. *)
Definition page_of (doc : Doc) : str :=
  match page_number doc with
  | Some n => str_of_Z n
  | None => L "N/A"
  end.

Definition content_of (doc : Doc) : str := get (content doc) [].

Definition start_marker (f p : str) : str :=
  L "--- START (Filename: " ++ f ++ L ", Page: " ++ p ++ L ") ---".

Definition end_marker (f p : str) : str :=
  L "--- END (Filename: " ++ f ++ L ", Page: " ++ p ++ L ") ---".

Definition nlnl : str := [nl; nl].

Section Assemble.

Variable ord : SetOrder.
Variable USE_SNIPPET_RETRIEVAL : bool.
Variable question : str.

Definition snippets_of (doc : Doc) : list str :=
  _pick_snippets ord (content_of doc) question 3 800.

(** [block_text] of one result. *)
Definition block_text (doc : Doc) : str :=
  let f := filename_of doc in
  let p := page_of doc in
  if USE_SNIPPET_RETRIEVAL then
    match snippets_of doc with
    | [] => []
    | snippets =>
        join nlnl ([start_marker f p] ++ snippets ++ [end_marker f p]) ++ nlnl
    end
  else
    nlnl ++ start_marker f p ++ nlnl ++ content_of doc ++ nlnl
      ++ end_marker f p ++ nlnl.

(** [not context_parts]. *)
Definition none_yet (context_parts : list str) : bool :=
  match context_parts with [] => true | _ => false end.

(** [for doc in cursor], with [context_parts] and [total_len] carried
    along; the [break] returns at once. *)
Fixpoint context_loop (docs : list Doc) (context_parts : list str)
  (total_len : Z) : list str :=
  match docs with
  | [] => context_parts
  | doc :: rest =>
      let bt := block_text doc in
      if truthy bt
         && ((total_len + zlen bt <=? max_total)%Z
             || none_yet context_parts)
      then context_loop rest (context_parts ++ [bt]) (total_len + zlen bt)
      else if truthy bt then context_parts
      else context_loop rest context_parts total_len
  end.

Definition context_parts_of (docs : list Doc) : list str :=
  context_loop (firstn 7 docs) [] 0.

Definition no_context : str := L "No relevant policy documents found.".
Definition search_error : str := L "Error searching database.".

(** [find_relevant_context(question, db)].  The collection lookup stands
    before the [try]; an exception of the search itself is caught. *)
Definition find_relevant_context (db : Database) : result str :=
  match get_collection db with
  | Raise e => Raise e
  | Ok collection =>
      match find_text collection question with
      | Raise _ => Ok search_error
      | Ok docs =>
          let context := concat (context_parts_of docs) in
          if is_empty context then Ok no_context else Ok context
      end
  end.

End Assemble.

End Assembler.

(** ** Question Orchestrator *)

Module Orchestrator.

Import Selector Assembler Verifier.

Definition Q_ (s : str) : str := [dquote] ++ s ++ [dquote].

(** The prompt f-string. *)
Definition prompt_of (question context : str) : str :=
  join [nl]
    [ [];
      L "    You are a compliance auditor. Your task is to determine if a policy document meets a specific requirement.";
      [];
      L "    Requirement (Question):";
      L "    " ++ Q_ question;
      [];
      L "    Policy Document Excerpts (Context from Database):";
      L "    " ++ Q_ (slice_to context 12000);
      [];
      L "    Instructions:";
      L "    1. Read the Requirement and Context carefully. Pay attention to Filename and Page markers.";
      L "    2. Determine if the Context *fully satisfies* the Requirement.";
      L "    3. If the Requirement is vague or nonsensical, respond " ++ Q_ (L "STATUS: Not Met") ++ L ".";
      L "    4. Respond ONLY in the following exact format:";
      L "        STATUS: Met|Not Met";
      L "        EVIDENCE: (From Filename: <file>, Page: <page_num>) " ++ Q_ (L "<exact quote>") ++ L "    [ONLY if Met]";
      L "    5. If Met, quote the exact text and cite the filename AND page number.";
      [];
      L "    Example Response (Met):";
      L "    STATUS: Met";
      L "    EVIDENCE: (From Filename: GG.1508_v2.pdf, Page: 10) " ++ Q_ (L "For a retrospective request... no later than fourteen (14) calendar days...");
      [];
      L "    Example Response (Not Met):";
      L "    STATUS: Not Met";
      [];
      L "    Begin analysis.";
      L "    " ].

Section Pipeline.

Variable ord : SetOrder.
Variable USE_SNIPPET_RETRIEVAL : bool.
Variable gemini_model : option Model.
Variable db : Database.

(** [analyze_question_with_gemini(question, db)]: the response text and the
    context used.  An exception of the model call is caught and turned
    into a response text; one of [find_relevant_context] is not caught
    here. *)
Definition analyze_question_with_gemini (question : str)
  : result (str * str) :=
  match gemini_model with
  | None => Ok (L "Error: Gemini model not initialized.", [])
  | Some generate_content =>
      match find_relevant_context ord USE_SNIPPET_RETRIEVAL question db with
      | Raise e => Raise e
      | Ok context =>
          match generate_content (prompt_of question context) with
          | Ok text =>
              Ok (if truthy text then text
                  else L "Error: AI generated an empty response.", context)
          | Raise e =>
              Ok (L "Error: Could not analyze question. " ++ e, context)
          end
      end
  end.

Record Verdict : Type := MkVerdict {
  v_question : str;
  v_status : str;
  v_evidence : str }.

(** [analyze_single_question_task(question)]. *)
Definition analyze_single_question_task (question : str) : Verdict :=
  match analyze_question_with_gemini question with
  | Ok (text, used_context) =>
      let (status, evidence) := parse_gemini_response text used_context in
      MkVerdict question status evidence
  | Raise e => MkVerdict question (L "Error") (L "Analysis failed: " ++ e)
  end.

(** [list(executor.map(analyze_single_question_task, questions))]: the
    results are collected by position, whatever the order in which the
    workers finish. *)
Definition analyze_questions (questions : list str) : list Verdict :=
  map analyze_single_question_task questions.

End Pipeline.

End Orchestrator.

(** ** The upload route: [upload_audit_pdf] *)

Module Route.

Import Selector Assembler Verifier Segmenter Orchestrator.

(** The file part of the request: its name, and what [pdfplumber] extracts
    from its stream ([None] when the stream cannot be read). *)
Record Upload : Type := MkUpload {
  up_filename : str;
  up_stream : option (list (option str)) }.

(** [jsonify({"error": msg}), code], or [jsonify(results)]. *)
Inductive Response : Type :=
| Json_error (msg : str) (code : Z)
| Json_results (results : list Verdict).

Section Upload.

Variable ord : SetOrder.
Variable USE_SNIPPET_RETRIEVAL : bool.

(** [upload_audit_pdf()]: [file_part] is [request.files['file']] when the
    key is there; [mongo_client] gives the database when the connection was
    made. *)
Definition upload_audit_pdf (file_part : option Upload)
  (mongo_client : option Database) (gemini_model : option Model) : Response :=
  match file_part with
  | None => Json_error (L "No file part") 400
  | Some file =>
      if is_empty (up_filename file)
      then Json_error (L "No selected file") 400
      else
        match mongo_client with
        | None => Json_error (L "Database not connected") 500
        | Some db =>
            match gemini_model with
            | None => Json_error (L "Gemini model not initialized") 500
            | Some _ =>
                let questions := extract_questions_from_pdf (up_stream file) in
                match questions with
                | [] => Json_error (L "Could not extract questions.") 400
                | _ =>
                    Json_results
                      (analyze_questions ord USE_SNIPPET_RETRIEVAL
                         gemini_model db questions)
                end
            end
        end
  end.

End Upload.

End Route.

(** ** Store population: [populate_database] (src/populate_db.py) *)

Module Populate.

Definition not_slash (c : ascii) : bool := negb (ascii_eqb c "/"%char).

(** [os.path.basename(path)] on POSIX: what follows the last slash. *)
Definition basename (path : str) : str :=
  rev (take_while not_slash (rev path)).

(** [os.path.join(root, file)] on POSIX, two arguments. *)
Definition path_join (root file : str) : str :=
  if startswith (L "/") file then file
  else if is_empty root || endswith (L "/") root then root ++ file
  else root ++ L "/" ++ file.

(** [for root, _, files in os.walk(POLICY_DIR)]: the PDF paths, a file
    being taken when its lower-cased name ends with [.pdf]. *)
Definition pdf_files_of (walk : list (str * list str)) : list str :=
  flat_map
    (fun entry =>
       map (path_join (fst entry))
           (filter (fun file => endswith (L ".pdf") (lower file)) (snd entry)))
    walk.

(** The documents of the pages of one file, from page number [n] on.  A
    page gives [extract_text]'s result or raises; an exception leaves the
    file, and the documents made before it stay. *)
Fixpoint pages_docs (base_filename : str) (n : Z)
  (pages : list (result (option str))) : list Doc :=
  match pages with
  | [] => []
  | Raise _ :: _ => []
  | Ok None :: rest => pages_docs base_filename (n + 1) rest
  | Ok (Some text) :: rest =>
      if truthy text
      then MkDoc (Some base_filename) (Some n) (Some (strip text))
             :: pages_docs base_filename (n + 1) rest
      else pages_docs base_filename (n + 1) rest
  end.

(** What is read from the file system: [pdfplumber.open(path)] gives the
    pages, numbered from 1, or raises. *)
Definition PdfReader : Type := str -> result (list (result (option str))).

Definition file_docs (open_pdf : PdfReader) (pdf_path : str) : list Doc :=
  match open_pdf pdf_path with
  | Raise _ => []
  | Ok pages => pages_docs (basename pdf_path) 1 pages
  end.

Definition documents_to_insert (open_pdf : PdfReader)
  (walk : list (str * list str)) : list Doc :=
  flat_map (file_docs open_pdf) (pdf_files_of walk).

(** The calls [populate_database] makes on the collection. *)
Inductive StoreCall : Type :=
| DeleteMany
| InsertMany (docs : list Doc)
| DropIndexes
| CreateIndex.

(** Which of the store calls succeed. *)
Record StoreReplies : Type := MkReplies {
  delete_ok : bool;
  insert_ok : bool;
  drop_ok : bool }.

(** [populate_database()]: the store calls made, in order; [client] tells
    whether the connection was made.  [create_index] is the last call, so
    its outcome changes no call. *)
Definition populate_database (client : bool) (replies : StoreReplies)
  (open_pdf : PdfReader) (walk : list (str * list str)) : list StoreCall :=
  if negb client then []
  else if negb (delete_ok replies) then [DeleteMany]
  else
    match pdf_files_of walk with
    | [] => [DeleteMany]
    | _ =>
        match documents_to_insert open_pdf walk with
        | [] => [DeleteMany]
        | docs =>
            if negb (insert_ok replies) then [DeleteMany; InsertMany docs]
            else if negb (drop_ok replies)
            then [DeleteMany; InsertMany docs; DropIndexes]
            else [DeleteMany; InsertMany docs; DropIndexes; CreateIndex]
        end
    end.

End Populate.

(** * Specification vocabulary *)

Import Verifier Segmenter Selector Assembler Orchestrator.

(** ** Notions the properties are stated with *)

(** [sub] occurs in [s]. *)
Definition substr (sub s : str) : Prop :=
  exists pre post, s = pre ++ sub ++ post.

(** The text holds [STATUS:], any whitespace, [Met], ignoring case. *)
Definition status_occurs (text : str) : Prop :=
  exists pre s ws m rest,
    text = pre ++ s ++ ws ++ m ++ rest
    /\ lower s = L "status:" /\ forallb is_space ws = true
    /\ lower m = L "met".

(** The response of the specification's scenario: status Met and an
    evidence line citing file [G], page 1, with the quote [Q]. *)
Definition response (G Q : str) : str :=
  L "STATUS: Met" ++ [nl] ++ L "EVIDENCE: (From Filename: " ++ G
    ++ L ", Page: 1) " ++ [dquote] ++ Q ++ [dquote].

(** The loop of [parse_gemini_response] over the scanned blocks, with the
    in-block position of the quote in place of the score: the block kept is
    the one with the least position, the first scanned among equals. *)
Fixpoint earliest (norm_quote : str) (blocks : list (str * str * str))
  (cur : option (nat * (str * str * str)))
  : option (nat * (str * str * str)) :=
  match blocks with
  | [] => cur
  | m :: rest =>
      match find_opt (norm (snd m)) norm_quote with
      | Some i =>
          match cur with
          | Some (j, _) =>
              if i <? j then earliest norm_quote rest (Some (i, m))
              else earliest norm_quote rest cur
          | None => earliest norm_quote rest (Some (i, m))
          end
      | None => earliest norm_quote rest cur
      end
  end.

(** The block the Verifier takes the citation from, if any. *)
Definition select_block (quote_text context : str)
  : option (nat * (str * str * str)) :=
  if truthy context
  then earliest (norm quote_text) (finditer context) None
  else None.

(** The loop state that corresponds to a choice made so far. *)
Definition state_of (found : option str * option str)
  (cur : option (nat * (str * str * str))) : Best :=
  match cur with
  | None => MkBest (inject_Z (-1)) (fst found) (snd found)
  | Some (i, m) =>
      MkBest (score_of (Z.of_nat i)) (Some (fst (fst m))) (Some (snd (fst m)))
  end.

(** The model's own citation when it gave a usable one, else the evidence
    text as it came: what the Verifier returns when no block is selected. *)
Definition claimed_evidence (evidence_text : str) : str :=
  if opt_truthy (fst (found_of evidence_text))
     && opt_truthy (snd (found_of evidence_text))
  then format_evidence (opt_str (fst (found_of evidence_text)))
         (opt_str (snd (found_of evidence_text)))
         (quote_text_of evidence_text)
  else evidence_text.


(** The block the Assembler emits for a page, as the scanner should read
    it: file name, page text, and the text between the START line and the
    END marker. *)
Definition inner_of (ord : SetOrder) (use_snippets : bool) (question : str)
  (doc : Doc) : str :=
  if use_snippets then join nlnl (snippets_of ord question doc) ++ nlnl
  else content_of doc ++ nlnl.

Definition lead_of (use_snippets : bool) : str :=
  if use_snippets then [] else nlnl.

Definition emitted_block (ord : SetOrder) (use_snippets : bool)
  (question : str) (doc : Doc) : str * str * str :=
  (filename_of doc, page_of doc, inner_of ord use_snippets question doc).

(** A block the scanner can read back: a non-empty file name without
    comma, a page that is a non-empty run of digits, and an inner text in
    which the END marker of the block does not occur (ignoring case)
    before the marker itself. *)
Definition well_formed_block (m : str * str * str) : bool :=
  let '(f, p, inner) := m in
  truthy f && forallb not_comma f && truthy p && forallb is_digit p
  && match find_ci (end_pattern f p) (inner ++ end_pattern f p) 0 with
     | Some k => k =? length inner
     | None => false
     end.

(** What holds of the accepted blocks at every moment of the assembly
    loop: the whole is within the ceiling or is a single block, and each
    block was non-empty and either fitted or was the first. *)
Definition within_ceiling (parts : list str) : Prop :=
  ((zlen (concat parts) <= max_total)%Z \/ exists b, parts = [b])
  /\ forall i b, nth_error parts i = Some b ->
       b <> [] /\ ((zlen (concat (firstn (S i) parts)) <= max_total)%Z
                   \/ i = 0%nat).

(** A well-formed output of the Segmenter. *)
Definition is_question (q : str) : Prop :=
  endswith qmark q = true
  /\ 4 < length (split_ws q)
  /\ exists lines,
       q = q_text_of lines
       /\ endswith qmark (strip (join space lines)) = true.

(** Whether a text read from state [b] ends inside a whitespace run. *)
Definition ends_ws (b : bool) (x : str) : bool :=
  fold_left (fun _ c => is_space c) x b.

(** The text holds [EVIDENCE:], ignoring case. *)
Definition evidence_occurs (text : str) : Prop :=
  exists pre e rest, text = pre ++ e ++ rest /\ lower e = L "evidence:".


(** A response that gives an evidence string back to the Verifier. *)
Definition met_response (evidence : str) : str :=
  L "STATUS: Met" ++ [nl] ++ L "EVIDENCE: " ++ evidence.

(** ** Example data *)

Definition ex_question : str :=
  L "Are members notified within 14 calendar days?".

Definition ex_page : str :=
  L "Members are notified within 14 calendar days.".

(** A stored page, the same page without page number, and a long page
    with one phrase of [ex_question] near its start and another one more
    than a window away. *)
Definition ex_doc : Doc :=
  MkDoc (Some (L "F.pdf")) (Some 7%Z) (Some ex_page).

Definition ex_doc_no_page : Doc :=
  MkDoc (Some (L "F.pdf")) None (Some ex_page).


(** Stores that return one page; a store whose collection lookup raises. *)
Definition ex_db : Database :=
  MkDatabase (Ok (MkCollection (fun _ => Ok [ex_doc]))).

Definition ex_db_no_page : Database :=
  MkDatabase (Ok (MkCollection (fun _ => Ok [ex_doc_no_page]))).


Definition ex_empty_db : Database :=
  MkDatabase (Ok (MkCollection (fun _ => Ok []))).

Definition ex_broken_db : Database :=
  MkDatabase (Raise (L "no such collection")).

(** A context with one block, and the context assembled for [ex_question]
    from the page without page number. *)
Definition ex_context : str :=
  start_marker (L "F.pdf") (L "7") ++ nlnl
    ++ L "Members are told within 14 calendar days." ++ nlnl
    ++ end_marker (L "F.pdf") (L "7") ++ nlnl.

Definition ex_context_no_page : str :=
  concat (context_parts_of insertion_order true ex_question [ex_doc_no_page]).

(** Quotes: one that is in the page of [ex_context] up to case and
    spacing, one that is in no page, one that is in [ex_page]. *)
Definition ex_quote : str := L "told within 14 Calendar  days".
Definition ex_absent_quote : str := L "told within 30 calendar days".
Definition ex_quote_in_page : str := L "notified within 14 calendar days".

(** A response with status Not Met and an evidence line; a model that
    gives it; a model call that raises. *)
Definition ex_not_met : str :=
  L "STATUS: Not Met" ++ [nl] ++ L "EVIDENCE: (From Filename: G.pdf, Page: 1) "
    ++ [dquote] ++ L "within 14 calendar days" ++ [dquote].

Definition ex_model : Model := fun _ => Ok ex_not_met.

Definition ex_failing_model : Model := fun _ => Raise (L "quota exceeded").

(** The text of the specification's segmentation scenario. *)
Definition ex_pdf_text : str :=
  L "1. Does the policy require X?" ++ [nl] ++ L "2. Short?" ++ [nl].

(** A directory walk with one PDF and one other file, and a reader that
    gives three pages, the second without text. *)
Definition ex_walk : list (str * list str) :=
  [(L "policy_documents/GG", [L "GG.1508.PDF"; L "notes.txt"])].

Definition ex_reader : Populate.PdfReader :=
  fun _ => Ok [Ok (Some (L "  Page one text. ")); Ok None;
               Ok (Some (L "Third page."))].


(** * Properties *)

(** ** The scenarios of the specification *)

Example segmenter_scenario :
  extract_questions_from_pdf (Some [Some ex_pdf_text])
  = [L "1. Does the policy require X?"].
Proof. vm_compute. reflexivity. Qed.

Example no_pages_scenario :
  find_relevant_context insertion_order true ex_question ex_empty_db
  = Ok (L "No relevant policy documents found.")
  /\ parse_gemini_response (L "STATUS: Not Met")
       (L "No relevant policy documents found.")
     = (L "Not Met", L "N/A").
Proof. split; vm_compute; reflexivity. Qed.

Example override_scenario :
  parse_gemini_response (response (L "G.pdf") ex_quote) ex_context
  = (L "Met",
     L "(From Filename: F.pdf, Page: 7) " ++ [dquote] ++ ex_quote ++ [dquote]).
Proof. vm_compute. reflexivity. Qed.

(** ** Characters and strings *)

Lemma ascii_eqb_eq (a b : ascii) : ascii_eqb a b = true <-> a = b.
Proof. unfold ascii_eqb. apply Ascii.eqb_eq. Qed.


Lemma ascii_eqb_neq (a b : ascii) : ascii_eqb a b = false <-> a <> b.
Proof. unfold ascii_eqb. apply Ascii.eqb_neq. Qed.

Ltac all_chars c :=
  destruct c as [[] [] [] [] [] [] [] []]; vm_compute; try reflexivity;
  try discriminate; try tauto.

Lemma space_lower (c : ascii) : is_space c = true -> lower_char c = c.
Proof. all_chars c. Qed.

Lemma lower_space (c : ascii) : is_space (lower_char c) = is_space c.
Proof. all_chars c. Qed.

Lemma lower_char_idem (c : ascii) : lower_char (lower_char c) = lower_char c.
Proof. all_chars c. Qed.

Lemma digit_not_space (c : ascii) : is_digit c = true -> is_space c = false.
Proof. all_chars c. Qed.

Lemma str_eqb_eq (a b : str) : str_eqb a b = true <-> a = b.
Proof.
  revert b. induction a as [|x a IH]; destruct b as [|y b]; simpl;
    try (split; [discriminate | discriminate]); try tauto.
  rewrite andb_true_iff, ascii_eqb_eq, IH. split.
  - intros [-> ->]. reflexivity.
  - intros H. inversion H. auto.
Qed.

Lemma take_drop_while (f : ascii -> bool) (s : str) :
  take_while f s ++ drop_while f s = s.
Proof.
  induction s as [|c r IH]; simpl; [reflexivity|].
  destruct (f c); simpl; [rewrite IH|]; reflexivity.
Qed.

Lemma take_while_all (f : ascii -> bool) (s : str) :
  forallb f (take_while f s) = true.
Proof.
  induction s as [|c r IH]; simpl; [reflexivity|].
  destruct (f c) eqn:E; simpl; [rewrite E, IH|]; reflexivity.
Qed.

Lemma drop_while_head (f : ascii -> bool) (s : str) c r :
  drop_while f s = c :: r -> f c = false.
Proof.
  induction s as [|x s IH]; simpl; [discriminate|].
  destruct (f x) eqn:E; [exact IH|].
  intros H. inversion H. subst. exact E.
Qed.

Lemma drop_while_app (f : ascii -> bool) (x y : str) :
  forallb f x = true -> drop_while f (x ++ y) = drop_while f y.
Proof.
  induction x as [|c x IH]; simpl; [reflexivity|].
  rewrite andb_true_iff. intros [-> H]. auto.
Qed.

Lemma take_while_app (f : ascii -> bool) (x y : str) :
  forallb f x = true -> take_while f (x ++ y) = x ++ take_while f y.
Proof.
  induction x as [|c x IH]; simpl; [reflexivity|].
  rewrite andb_true_iff. intros [-> H]. rewrite IH by exact H. reflexivity.
Qed.

Lemma drop_while_stop (f : ascii -> bool) (c : ascii) (r : str) :
  f c = false -> drop_while f (c :: r) = c :: r.
Proof. intros H. simpl. rewrite H. reflexivity. Qed.

Lemma take_while_stop (f : ascii -> bool) (c : ascii) (r : str) :
  f c = false -> take_while f (c :: r) = [].
Proof. intros H. simpl. rewrite H. reflexivity. Qed.

Lemma startswith_iff (p s : str) :
  startswith p s = true <-> exists r, s = p ++ r.
Proof.
  revert s. induction p as [|x p IH]; intros s; simpl.
  - split; [intros _; exists s; reflexivity | reflexivity].
  - destruct s as [|y s].
    + split; [discriminate | intros [r H]; discriminate].
    + rewrite andb_true_iff, ascii_eqb_eq, IH. split.
      * intros [-> [r ->]]. exists r. reflexivity.
      * intros [r H]. inversion H. split; [reflexivity | exists r; reflexivity].
Qed.

Lemma lower_app (a b : str) : lower (a ++ b) = lower a ++ lower b.
Proof. apply map_app. Qed.

Lemma lower_length (a : str) : length (lower a) = length a.
Proof. apply length_map. Qed.

(** A case-insensitive literal matches exactly a prefix that lower-cases to
    the lower-cased literal. *)
Lemma lit_ci_spec (p s r : str) :
  lit_ci p s = Some r <-> exists a, s = a ++ r /\ lower a = lower p.
Proof.
  revert s. induction p as [|x p IH]; intros s; simpl.
  - split.
    + intros H. inversion H. exists []. auto.
    + intros [a [-> H]]. destruct a; [reflexivity | discriminate].
  - destruct s as [|y s].
    + split; [discriminate|]. intros [a [H1 H2]].
      destruct a; [discriminate | discriminate].
    + destruct (ascii_eqb (lower_char x) (lower_char y)) eqn:E.
      * apply ascii_eqb_eq in E. rewrite IH. split.
        -- intros [a [-> H]]. exists (y :: a). simpl. rewrite H, E. auto.
        -- intros [a [H1 H2]]. destruct a as [|z a]; [discriminate|].
           simpl in *. inversion H1. inversion H2. subst. eauto.
      * apply ascii_eqb_neq in E. split; [discriminate|].
        intros [a [H1 H2]]. destruct a as [|z a]; [discriminate|].
        simpl in *. inversion H1. inversion H2. subst. congruence.
Qed.

Lemma lit_ci_app (p r : str) : lit_ci p (p ++ r) = Some r.
Proof. apply lit_ci_spec. exists p. auto. Qed.

Lemma re_search_some {A} (m : str -> option A) (s : str) (a : A) :
  re_search m s = Some a -> exists pre suf, s = pre ++ suf /\ m suf = Some a.
Proof.
  induction s as [|c s IH]; simpl.
  - destruct (m []) eqn:E; [|discriminate]. intros H. inversion H. subst.
    exists [], []. auto.
  - destruct (m (c :: s)) eqn:E.
    + intros H. inversion H. subst. exists [], (c :: s). auto.
    + intros H. destruct (IH H) as [pre [suf [-> Hm]]].
      exists (c :: pre), suf. auto.
Qed.

Lemma re_search_none {A} (m : str -> option A) (s : str) :
  re_search m s = None <-> forall pre suf, s = pre ++ suf -> m suf = None.
Proof.
  induction s as [|c s IH]; simpl.
  - split.
    + intros H pre suf E. destruct pre; [|discriminate]. simpl in E. subst.
      destruct (m []); [discriminate | reflexivity].
    + intros H. rewrite (H [] [] eq_refl). reflexivity.
  - split.
    + intros H pre suf E. destruct (m (c :: s)) eqn:Em; [discriminate|].
      destruct pre as [|x pre]; simpl in E.
      * subst. exact Em.
      * inversion E as [[E1 E2]]. exact (proj1 IH H pre suf E2).
    + intros H. rewrite (H [] (c :: s) eq_refl). apply IH.
      intros pre suf E. apply (H (c :: pre) suf). simpl. rewrite E. reflexivity.
Qed.

(** ** C8: no status match, no evidence *)

Lemma status_at_occurs (suf : str) :
  status_at suf = Some tt <->
  exists s ws m rest, suf = s ++ ws ++ m ++ rest
    /\ lower s = L "status:" /\ forallb is_space ws = true
    /\ lower m = L "met".
Proof.
  unfold status_at. split.
  - destruct (lit_ci (L "STATUS:") suf) as [r|] eqn:E1; [|discriminate].
    destruct (lit_ci (L "Met") (drop_while is_space r)) as [r2|] eqn:E2;
      [|discriminate].
    intros _. apply lit_ci_spec in E1. destruct E1 as [s [-> Hs]].
    apply lit_ci_spec in E2. destruct E2 as [m [Hm1 Hm2]].
    exists s, (take_while is_space r), m, r2. repeat split.
    + rewrite <- Hm1, take_drop_while. reflexivity.
    + exact Hs.
    + apply take_while_all.
    + exact Hm2.
  - intros [s [ws [m [rest [-> [Hs [Hws Hm]]]]]]].
    assert (E1 : lit_ci (L "STATUS:") (s ++ ws ++ m ++ rest)
                 = Some (ws ++ m ++ rest))
      by (apply lit_ci_spec; exists s; auto).
    rewrite E1. rewrite drop_while_app by exact Hws.
    unfold L in Hm. simpl in Hm.
    destruct m as [|c m]; [discriminate|].
    assert (Hc : is_space c = false).
    { destruct (is_space c) eqn:Ec; [|reflexivity].
      pose proof (space_lower _ Ec) as El. inversion Hm as [[H0 H1]].
      rewrite El in H0. subst c. vm_compute in Ec. discriminate. }
    simpl app. rewrite drop_while_stop by exact Hc.
    assert (E2 : lit_ci (L "Met") ((c :: m) ++ rest) = Some rest)
      by (apply lit_ci_spec; exists (c :: m); auto).
    simpl app in E2. rewrite E2. reflexivity.
Qed.

Lemma status_search_iff (text : str) :
  re_search status_at text = Some tt <-> status_occurs text.
Proof.
  split.
  - intros H. apply re_search_some in H. destruct H as [pre [suf [-> H]]].
    apply status_at_occurs in H.
    destruct H as [s [ws [m [rest [-> H]]]]].
    exists pre, s, ws, m, rest. auto.
  - intros [pre [s [ws [m [rest [-> H]]]]]].
    destruct (re_search status_at (pre ++ s ++ ws ++ m ++ rest)) as [[]|] eqn:E;
      [reflexivity|].
    rewrite re_search_none in E.
    specialize (E pre (s ++ ws ++ m ++ rest) eq_refl).
    assert (status_at (s ++ ws ++ m ++ rest) = Some tt)
      by (apply status_at_occurs; exists s, ws, m, rest; auto).
    congruence.
Qed.

(** C8.  A response in which [STATUS:], optional whitespace and [Met] do
    not occur, whatever the case of the letters, is parsed as status
    Not Met with evidence exactly N/A, whatever else the response and the
    context contain. *)
Theorem C8_no_status_match_is_not_met (text context : str) :
  ~ status_occurs text ->
  parse_gemini_response text context = (L "Not Met", L "N/A").
Proof.
  intros H. unfold parse_gemini_response.
  destruct (re_search status_at text) as [[]|] eqn:E; [|reflexivity].
  apply status_search_iff in E. contradiction.
Qed.

(** A response with status Not Met and an evidence line is such a text. *)
Lemma C8_witness :
  ~ status_occurs ex_not_met
  /\ parse_gemini_response ex_not_met ex_context = (L "Not Met", L "N/A").
Proof.
  assert (H : ~ status_occurs ex_not_met).
  { intros H. apply status_search_iff in H. vm_compute in H. discriminate. }
  split; [exact H|].
  exact (C8_no_status_match_is_not_met ex_not_met ex_context H).
Defined.

(** ** C5: the global ceiling of the context *)

Lemma zlen_app (a b : str) : zlen (a ++ b) = (zlen a + zlen b)%Z.
Proof. unfold zlen. rewrite length_app. lia. Qed.

Lemma zlen_nonneg (a : str) : (0 <= zlen a)%Z.
Proof. unfold zlen. lia. Qed.

Lemma concat_snoc (parts : list str) (b : str) :
  concat (parts ++ [b]) = concat parts ++ b.
Proof. rewrite concat_app. simpl. rewrite app_nil_r. reflexivity. Qed.

Lemma truthy_iff (s : str) : truthy s = true <-> s <> [].
Proof. destruct s; unfold truthy; simpl; split; congruence. Qed.

Lemma truthy_false (s : str) : truthy s = false <-> s = [].
Proof. destruct s; unfold truthy; simpl; split; congruence. Qed.

Lemma within_ceiling_nil : within_ceiling [].
Proof.
  split.
  - left. vm_compute. discriminate.
  - intros i b H. destruct i; discriminate.
Qed.

Lemma within_ceiling_snoc (parts : list str) (b : str) :
  within_ceiling parts -> b <> [] ->
  (zlen (concat parts) + zlen b <= max_total)%Z \/ parts = [] ->
  within_ceiling (parts ++ [b]).
Proof.
  intros [H1 H2] Hb Hfit. split.
  - destruct Hfit as [Hfit | ->].
    + left. rewrite concat_snoc, zlen_app. exact Hfit.
    + right. exists b. reflexivity.
  - intros i x Hi.
    destruct (Nat.lt_ge_cases i (length parts)) as [Hlt | Hge].
    + rewrite nth_error_app1 in Hi by exact Hlt.
      destruct (H2 i x Hi) as [Hx Hc]. split; [exact Hx|].
      rewrite firstn_app.
      replace (S i - length parts)%nat with 0%nat by lia.
      simpl. rewrite app_nil_r. exact Hc.
    + rewrite nth_error_app2 in Hi by exact Hge.
      destruct (i - length parts)%nat as [|j] eqn:Ej.
      * simpl in Hi. inversion Hi. subst x. split; [exact Hb|].
        assert (i = length parts) by lia. subst i.
        rewrite firstn_all2 by (rewrite length_app; simpl; lia).
        destruct Hfit as [Hfit | ->].
        -- left. rewrite concat_snoc, zlen_app. exact Hfit.
        -- right. reflexivity.
      * simpl in Hi. destruct j; discriminate.
Qed.

Section Ceiling.

Variable ord : SetOrder.
Variable use_snippets : bool.
Variable question : str.

Local Abbreviation bt := (block_text ord use_snippets question).
Local Abbreviation loop := (context_loop ord use_snippets question).

Lemma context_loop_cons (d : Doc) (rest : list Doc) (parts : list str)
  (total : Z) :
  loop (d :: rest) parts total =
  if truthy (bt d)
  then if (total + zlen (bt d) <=? max_total)%Z
          || none_yet parts
       then loop rest (parts ++ [bt d]) (total + zlen (bt d))%Z
       else parts
  else loop rest parts total.
Proof.
  simpl. destruct (truthy (bt d)); simpl; [|reflexivity].
  destruct ((total + zlen (bt d) <=? max_total)%Z
            || none_yet parts); reflexivity.
Qed.

Lemma context_loop_within (docs : list Doc) :
  forall (parts : list str) (total : Z),
    total = zlen (concat parts) -> within_ceiling parts ->
    within_ceiling (loop docs parts total).
Proof.
  induction docs as [|d rest IH]; intros parts total Ht Hinv.
  - exact Hinv.
  - rewrite context_loop_cons. destruct (truthy (bt d)) eqn:Eb.
    + destruct ((total + zlen (bt d) <=? max_total)%Z
                || none_yet parts) eqn:Ec.
      * apply IH.
        -- rewrite concat_snoc, zlen_app. lia.
        -- apply within_ceiling_snoc; [exact Hinv | apply truthy_iff; exact Eb |].
           apply orb_true_iff in Ec. destruct Ec as [Ec | Ec].
           ++ left. apply Z.leb_le in Ec. lia.
           ++ right. destruct parts; [reflexivity | discriminate].
      * exact Hinv.
    + apply IH; assumption.
Qed.

(** The loop accepts the non-empty blocks of the results before the first
    one that is non-empty, does not fit and is not the first; nothing
    after that one. *)
Lemma context_loop_prefix (docs : list Doc) :
  forall (parts : list str) (total : Z),
    total = zlen (concat parts) ->
    exists k,
      loop docs parts total
      = parts ++ filter truthy (map bt (firstn k docs))
      /\ (k = length docs
          \/ exists d, nth_error docs k = Some d /\ bt d <> []
               /\ loop docs parts total <> []
               /\ (zlen (concat (loop docs parts total)) + zlen (bt d)
                   > max_total)%Z).
Proof.
  induction docs as [|d rest IH]; intros parts total Ht.
  - exists 0%nat. simpl. rewrite app_nil_r. auto.
  - rewrite context_loop_cons. destruct (truthy (bt d)) eqn:Eb; cbv iota.
    + destruct ((total + zlen (bt d) <=? max_total)%Z
                || none_yet parts) eqn:Ec; cbv iota.
      * destruct (IH (parts ++ [bt d]) (total + zlen (bt d))%Z) as [k [Hk Hr]].
        { rewrite concat_snoc, zlen_app. lia. }
        exists (S k). split.
        -- etransitivity; [exact Hk|]. simpl. rewrite Eb.
           rewrite <- app_assoc. reflexivity.
        -- destruct Hr as [-> | Hr]; [left; reflexivity | right].
           exact Hr.
      * exists 0%nat. simpl. rewrite app_nil_r. split; [reflexivity|].
        right. exists d. apply orb_false_iff in Ec. destruct Ec as [Ec1 Ec2].
        apply Z.leb_gt in Ec1.
        repeat split.
        -- apply truthy_iff. exact Eb.
        -- destruct parts; [discriminate | discriminate].
        -- lia.
    + destruct (IH parts total Ht) as [k [Hk Hr]].
      exists (S k). split.
      * etransitivity; [exact Hk|]. simpl. rewrite Eb. reflexivity.
      * destruct Hr as [-> | Hr]; [left; reflexivity | right; exact Hr].
Qed.

End Ceiling.

(** C5.  The context parts accepted for any search result are within the
    ceiling of 18,000 characters or are exactly one block; every accepted
    block is non-empty and was accepted because the total stayed within
    the ceiling or because it was the first; the accepted blocks are the
    non-empty blocks of the results that precede the first non-empty block
    that would exceed the ceiling, and none after it.  The context string
    returned by [find_relevant_context] is therefore within the ceiling or
    is one accepted block. *)
Theorem C5_context_ceiling (ord : SetOrder) (use_snippets : bool)
  (question : str) :
  (forall docs : list Doc,
     let parts := context_parts_of ord use_snippets question docs in
     ((zlen (concat parts) <= 18000)%Z \/ exists b, parts = [b])
     /\ (forall i b, nth_error parts i = Some b ->
           b <> [] /\ ((zlen (concat (firstn (S i) parts)) <= 18000)%Z
                       \/ i = 0%nat))
     /\ exists k,
          parts = filter truthy
                    (map (block_text ord use_snippets question)
                       (firstn k (firstn 7 docs)))
          /\ (k = length (firstn 7 docs)
              \/ exists d, nth_error (firstn 7 docs) k = Some d
                   /\ block_text ord use_snippets question d <> []
                   /\ parts <> []
                   /\ (zlen (concat parts)
                       + zlen (block_text ord use_snippets question d)
                       > 18000)%Z))
  /\ (forall (db : Database) (context : str),
        find_relevant_context ord use_snippets question db = Ok context ->
        (zlen context <= 18000)%Z
        \/ exists collection docs,
             get_collection db = Ok collection
             /\ find_text collection question = Ok docs
             /\ context_parts_of ord use_snippets question docs = [context]).
Proof.
  split.
  - intros docs parts.
    destruct (context_loop_within ord use_snippets question (firstn 7 docs)
                [] 0%Z eq_refl within_ceiling_nil) as [H1 H2].
    destruct (context_loop_prefix ord use_snippets question (firstn 7 docs)
                [] 0%Z eq_refl) as [k Hk].
    split; [exact H1|]. split; [exact H2|]. exists k. exact Hk.
  - intros db context H. unfold find_relevant_context in H.
    destruct (get_collection db) as [collection|e] eqn:Ec; [|discriminate].
    destruct (find_text collection question) as [docs|e] eqn:Ef.
    + destruct (context_loop_within ord use_snippets question (firstn 7 docs)
                  [] 0%Z eq_refl within_ceiling_nil) as [H1 _].
      fold (context_parts_of ord use_snippets question docs) in H1.
      destruct (is_empty (concat (context_parts_of ord use_snippets question docs)));
        inversion H; subst.
      * left. vm_compute. discriminate.
      * destruct H1 as [H1 | [b Hb]]; [left; exact H1 | right].
        exists collection, docs. rewrite Hb. simpl. rewrite app_nil_r. auto.
    + inversion H. left. vm_compute. discriminate.
Qed.

(** ** C9: bounds of the snippet selector *)

Lemma slice_to_length {A} (l : list A) (n : Z) :
  (0 <= n)%Z -> (Z.of_nat (length (slice_to l n)) <= n)%Z.
Proof.
  intros H. unfold slice_to.
  destruct (0 <=? n)%Z eqn:E; [|apply Z.leb_gt in E; lia].
  pose proof (firstn_le_length (Z.to_nat n) l). lia.
Qed.

Lemma windows_loop_bound (content : str) (per_doc : Z) (phrases : list str) :
  forall windows : list str,
    (Z.of_nat (length windows) < per_doc)%Z ->
    (Z.of_nat (length (windows_loop content per_doc phrases windows))
     <= per_doc)%Z.
Proof.
  induction phrases as [|ph rest IH]; intros windows H; simpl.
  - lia.
  - destruct (is_empty ph); [apply IH; exact H|].
    destruct (negb (find (lower content) ph =? -1)%Z); [|apply IH; exact H].
    match goal with |- context [if ?c then _ else _] => destruct c eqn:E end.
    + rewrite length_app in *. simpl in *. lia.
    + apply IH. apply Z.leb_gt in E. exact E.
Qed.

(** C9, as the code has it.  For [per_doc >= 1] and
    [max_chars_per_snippet >= 0], which the defaults 3 and 800 satisfy,
    [_pick_snippets] returns at most [per_doc] snippets, each of length at
    most [max_chars_per_snippet], whichever branch produces them; for
    empty content it returns the empty sequence, whatever the parameters. *)
Theorem C9_snippet_bounds (ord : SetOrder) (content question : str)
  (per_doc max_chars_per_snippet : Z) :
  (1 <= per_doc)%Z -> (0 <= max_chars_per_snippet)%Z ->
  let snippets :=
    _pick_snippets ord content question per_doc max_chars_per_snippet in
  (Z.of_nat (length snippets) <= per_doc)%Z
  /\ Forall (fun s => (zlen s <= max_chars_per_snippet)%Z) snippets
  /\ _pick_snippets ord [] question per_doc max_chars_per_snippet = [].
Proof.
  intros Hp Hm snippets. subst snippets. unfold _pick_snippets.
  destruct (is_empty content).
  - simpl. split; [lia|]. split; [constructor | reflexivity].
  - set (q_toks := _tokenize question).
    set (phrases := ord _).
    pose proof (windows_loop_bound content per_doc phrases [])  as Hw.
    simpl in Hw. specialize (Hw ltac:(lia)).
    destruct (windows_loop content per_doc phrases []) as [|w ws] eqn:Ew.
    + destruct (paras_of content) as [|p ps] eqn:Ep.
      * simpl. split; [lia|]. split; [constructor | reflexivity].
      * split; [|split; [|reflexivity]].
        -- rewrite length_map. apply slice_to_length. lia.
        -- apply Forall_map, Forall_forall. intros x _.
           apply slice_to_length. exact Hm.
    + split; [|split; [|reflexivity]].
      * rewrite length_map. exact Hw.
      * apply Forall_map, Forall_forall. intros x _.
        apply slice_to_length. exact Hm.
Qed.

(** The defaults of the only call site. *)
Lemma C9_witness :
  (1 <= 3)%Z /\ (0 <= 800)%Z
  /\ (Z.of_nat (length (_pick_snippets insertion_order ex_page ex_question 3 800))
      <= 3)%Z.
Proof.
  split; [lia|]. split; [lia|].
  exact (proj1 (C9_snippet_bounds insertion_order ex_page ex_question 3 800
                  ltac:(lia) ltac:(lia))).
Defined.

(** With [per_doc = 0] the phrase branch appends a window before it tests
    the count, and returns one snippet. *)
Lemma C9_counterexample :
  ~ (Z.of_nat (length (_pick_snippets insertion_order ex_page ex_question 0 800))
     <= 0)%Z.
Proof. vm_compute. intros H. apply H. reflexivity. Qed.

(** ** C7: the per-question task *)

(** Only the collection lookup, which stands outside every [try] of the
    pipeline, raises up to the task. *)
Lemma analyze_raises_iff (ord : SetOrder) (use_snippets : bool)
  (gemini_model : option Model) (db : Database) (question e : str) :
  analyze_question_with_gemini ord use_snippets gemini_model db question
  = Raise e
  <-> (exists g, gemini_model = Some g) /\ get_collection db = Raise e.
Proof.
  unfold analyze_question_with_gemini, find_relevant_context.
  destruct gemini_model as [g|].
  - destruct (get_collection db) as [c|e'].
    + split.
      * destruct (find_text c question) as [docs|e2].
        -- destruct (is_empty _); destruct (g _); discriminate.
        -- destruct (g _); discriminate.
      * intros [_ H]. discriminate.
    + split.
      * intros H. inversion H. split; [exists g|]; reflexivity.
      * intros [_ H]. inversion H. reflexivity.
  - split; [discriminate|]. intros [[g H] _]. discriminate.
Qed.

(** C7, as the code has it.  The verdicts come in the order of the
    questions, one per question and carrying its text, and each depends on
    its own question only; an exception that reaches the task (the one of
    the collection lookup, the only one the pipeline does not catch
    earlier) becomes a verdict with status Error, the question text and
    the message.  What the pipeline makes of the exceptions it catches
    earlier, those of the text search and of the model call, is decided by
    the Verifier on the replacement text. *)
Theorem C7_verdicts_in_order (ord : SetOrder) (use_snippets : bool)
  (gemini_model : option Model) (db : Database) (questions : list str) :
  let task := analyze_single_question_task ord use_snippets gemini_model db in
  let results := analyze_questions ord use_snippets gemini_model db questions in
  map v_question results = questions
  /\ length results = length questions
  /\ (forall i q, nth_error questions i = Some q ->
        nth_error results i = Some (task q))
  /\ (forall q e,
        analyze_question_with_gemini ord use_snippets gemini_model db q
        = Raise e ->
        task q = MkVerdict q (L "Error") (L "Analysis failed: " ++ e))
  /\ (forall q e,
        analyze_question_with_gemini ord use_snippets gemini_model db q
        = Raise e
        <-> (exists g, gemini_model = Some g) /\ get_collection db = Raise e).
Proof.
  intros task results. subst task results. unfold analyze_questions.
  split; [|split; [|split; [|split]]].
  - rewrite map_map. induction questions as [|q qs IH]; simpl.
    + reflexivity.
    + rewrite IH. f_equal. unfold analyze_single_question_task.
      destruct (analyze_question_with_gemini _ _ _ _ q) as [[t c]|e].
      * destruct (parse_gemini_response t c). reflexivity.
      * reflexivity.
  - apply length_map.
  - intros i q H. rewrite nth_error_map, H. reflexivity.
  - intros q e H. unfold analyze_single_question_task. rewrite H. reflexivity.
  - intros q e. apply analyze_raises_iff.
Qed.

(** A store whose collection lookup raises: the verdict has status
    Error. *)
Lemma C7_witness :
  analyze_single_question_task insertion_order true (Some ex_model)
    ex_broken_db ex_question
  = MkVerdict ex_question (L "Error")
      (L "Analysis failed: " ++ L "no such collection").
Proof.
  destruct (C7_verdicts_in_order insertion_order true (Some ex_model)
              ex_broken_db [ex_question]) as [_ [_ [_ [H _]]]].
  exact (H ex_question (L "no such collection") eq_refl).
Defined.

(** An exception of the model call is caught inside
    [analyze_question_with_gemini]; the verdict of that question has status
    Not Met and evidence N/A, not status Error. *)
Lemma C7_counterexample :
  (forall prompt, ex_failing_model prompt = Raise (L "quota exceeded"))
  /\ analyze_single_question_task insertion_order true
       (Some ex_failing_model) ex_db ex_question
     = MkVerdict ex_question (L "Not Met") (L "N/A")
  /\ v_status (analyze_single_question_task insertion_order true
                 (Some ex_failing_model) ex_db ex_question) <> L "Error".
Proof.
  split; [reflexivity|]. split; [vm_compute; reflexivity|].
  vm_compute. discriminate.
Qed.

(** ** C6: what the Segmenter emits *)

Lemma endswith_qmark_iff (s : str) :
  endswith qmark s = true <-> exists x, s = x ++ qmark.
Proof.
  unfold endswith. rewrite startswith_iff. split.
  - intros [r H]. exists (rev r).
    rewrite <- (rev_involutive s), H. simpl. reflexivity.
  - intros [x ->]. exists (rev x). rewrite rev_app_distr. reflexivity.
Qed.

Lemma join_snoc (sep : str) (parts : list str) (l : str) :
  exists y, join sep (parts ++ [l]) = y ++ l.
Proof.
  induction parts as [|p rest IH]; simpl.
  - exists []. reflexivity.
  - destruct IH as [y Hy]. destruct (rest ++ [l]) as [|z zs] eqn:E.
    + destruct rest; discriminate.
    + exists (p ++ sep ++ y). rewrite Hy, <- !app_assoc. reflexivity.
Qed.

Lemma lstrip_keeps_last (y : str) (c : ascii) :
  is_space c = false -> exists y', lstrip (y ++ [c]) = y' ++ [c].
Proof.
  intros Hc. unfold lstrip. induction y as [|a y IH]; simpl.
  - rewrite Hc. exists []. reflexivity.
  - destruct (is_space a); [exact IH|]. exists (a :: y). reflexivity.
Qed.

Lemma rstrip_keeps_last (y : str) (c : ascii) :
  is_space c = false -> rstrip (y ++ [c]) = y ++ [c].
Proof.
  intros Hc. unfold rstrip. rewrite rev_app_distr. simpl. rewrite Hc.
  simpl. rewrite rev_involutive. reflexivity.
Qed.

Lemma strip_keeps_last (y : str) (c : ascii) :
  is_space c = false -> exists y', strip (y ++ [c]) = y' ++ [c].
Proof.
  intros Hc. unfold strip. destruct (lstrip_keeps_last y c Hc) as [y' ->].
  exists y'. apply rstrip_keeps_last. exact Hc.
Qed.

Lemma collapse_keeps_last (y : str) (c : ascii) :
  is_space c = false ->
  forall b, collapse_from b (y ++ [c]) = collapse_from b y ++ [c].
Proof.
  intros Hc. induction y as [|a y IH]; intros b; simpl.
  - rewrite Hc. reflexivity.
  - destruct (is_space a); [destruct b|]; rewrite IH; reflexivity.
Qed.

(** A candidate whose last line ends in a question mark is joined and
    normalised to a text that ends in one. *)
Lemma q_text_ends_with_qmark (cur : list str) (line : str) :
  endswith qmark line = true ->
  endswith qmark (strip (join space (cur ++ [line]))) = true
  /\ endswith qmark (q_text_of (cur ++ [line])) = true.
Proof.
  intros H. apply endswith_qmark_iff in H. destruct H as [x ->].
  assert (Hq : is_space "?"%char = false) by reflexivity.
  destruct (join_snoc space cur (x ++ qmark)) as [y Hy].
  unfold q_text_of. rewrite Hy, app_assoc.
  destruct (strip_keeps_last (y ++ x) "?"%char Hq) as [y1 H1].
  change qmark with ["?"%char]. rewrite H1. split.
  - apply endswith_qmark_iff. exists y1. reflexivity.
  - unfold collapse_ws. rewrite collapse_keeps_last by exact Hq.
    destruct (strip_keeps_last (collapse_from false y1) "?"%char Hq)
      as [y2 H2].
    rewrite H2. apply endswith_qmark_iff. exists y2. reflexivity.
Qed.

Lemma seg_step_questions (st : SegState) (line : str) :
  Forall is_question (questions st) ->
  Forall is_question (questions (seg_step st line)).
Proof.
  intros H. unfold seg_step.
  destruct (endswith qmark line) eqn:E.
  - destruct (4 <? length (split_ws
               (q_text_of (current_question_lines st ++ [line])))) eqn:Ew;
      simpl; [|exact H].
    apply Forall_app. split; [exact H|]. constructor; [|constructor].
    destruct (q_text_ends_with_qmark (current_question_lines st) line E)
      as [H1 H2].
    split; [exact H2|]. split; [apply Nat.ltb_lt; exact Ew|].
    exists (current_question_lines st ++ [line]). auto.
  - destruct (enum_match line && _); simpl; exact H.
Qed.

Lemma seg_loop_questions (lines : list str) :
  forall st, Forall is_question (questions st) ->
             Forall is_question (questions (fold_left seg_step lines st)).
Proof.
  induction lines as [|l rest IH]; intros st H; simpl.
  - exact H.
  - apply IH. apply seg_step_questions. exact H.
Qed.

(** C6.  Every question the Segmenter emits ends with a question mark, has
    more than four whitespace-separated words, and is the normalised join
    of accumulated lines whose join ends with a question mark.  In the
    loop, a candidate that ends with a question mark but has at most four
    words is discarded and the accumulation restarts; a line that does not
    end with a question mark adds no question. *)
Theorem C6_segmenter_questions :
  (forall (pages : option (list (option str))) (q : str),
     In q (extract_questions_from_pdf pages) ->
     endswith qmark q = true
     /\ 4 < length (split_ws q)
     /\ exists lines,
          q = q_text_of lines
          /\ endswith qmark (strip (join space lines)) = true)
  /\ (forall (st : SegState) (line : str),
        endswith qmark line = true ->
        length (split_ws (q_text_of (current_question_lines st ++ [line])))
        <= 4 ->
        seg_step st line = MkSeg (questions st) [])
  /\ (forall (st : SegState) (line : str),
        endswith qmark line = false ->
        questions (seg_step st line) = questions st).
Proof.
  split; [|split].
  - intros pages q H. unfold extract_questions_from_pdf in H.
    destruct pages as [ps|]; [|contradiction].
    destruct (truthy (full_text_of ps)); [|contradiction].
    unfold questions_of_text, seg_loop in H.
    pose proof (seg_loop_questions
                  (cleaned_lines_of
                     (split_on nl (sub_soft_break 0 (sub_hyphen 0 (full_text_of ps)))))
                  (MkSeg [] []) (Forall_nil _)) as HF.
    rewrite Forall_forall in HF. exact (HF q H).
  - intros st line E Hw. unfold seg_step. rewrite E.
    apply Nat.ltb_ge in Hw. rewrite Hw. reflexivity.
  - intros st line E. unfold seg_step. rewrite E.
    destruct (enum_match line && _); reflexivity.
Qed.

(** ** Substrings, [find] and normalisation *)

Lemma find_from_some (sub s : str) :
  forall i j, find_from sub s i = Some j ->
    exists pre post, s = pre ++ sub ++ post /\ j = i + length pre.
Proof.
  induction s as [|c s IH]; intros i j; simpl.
  - destruct (startswith sub []) eqn:E; [|discriminate].
    intros H. inversion H. subst. apply startswith_iff in E.
    destruct E as [r E]. exists [], r. simpl. split; [exact E | lia].
  - destruct (startswith sub (c :: s)) eqn:E.
    + intros H. inversion H. subst. apply startswith_iff in E.
      destruct E as [r E]. exists [], r. simpl. split; [exact E | lia].
    + intros H. destruct (IH _ _ H) as [pre [post [-> Hj]]].
      exists (c :: pre), post. simpl. split; [reflexivity | lia].
Qed.

Lemma find_from_none (sub s : str) :
  forall i, find_from sub s i = None ->
    forall pre post, s <> pre ++ sub ++ post.
Proof.
  induction s as [|c s IH]; intros i; simpl.
  - destruct (startswith sub []) eqn:E; [discriminate|]. intros _ pre post H.
    destruct pre; [|discriminate]. simpl in H.
    assert (startswith sub [] = true) by (apply startswith_iff; eauto).
    congruence.
  - destruct (startswith sub (c :: s)) eqn:E; [discriminate|].
    intros H pre post Hs. destruct pre as [|x pre]; simpl in Hs.
    + assert (startswith sub (c :: s) = true)
        by (apply startswith_iff; eauto).
      congruence.
    + inversion Hs. subst. exact (IH _ H pre post eq_refl).
Qed.

Lemma contains_iff (s sub : str) : contains s sub = true <-> substr sub s.
Proof.
  unfold contains, find_opt, substr.
  destruct (find_from sub s 0) as [j|] eqn:E; split; intros H.
  - destruct (find_from_some _ _ _ _ E) as [pre [post [Hs _]]]. eauto.
  - reflexivity.
  - discriminate.
  - destruct H as [pre [post Hs]].
    exfalso. exact (find_from_none _ _ _ E pre post Hs).
Qed.

Lemma substr_trans (a b c : str) : substr a b -> substr b c -> substr a c.
Proof.
  intros [p1 [q1 ->]] [p2 [q2 ->]]. exists (p2 ++ p1), (q1 ++ q2).
  rewrite <- !app_assoc. reflexivity.
Qed.

Lemma substr_lower (a b : str) : substr a b -> substr (lower a) (lower b).
Proof.
  intros [p [q ->]]. exists (lower p), (lower q).
  rewrite !lower_app. reflexivity.
Qed.

Lemma collapse_app (x y : str) :
  forall b, collapse_from b (x ++ y)
            = collapse_from b x ++ collapse_from (ends_ws b x) y.
Proof.
  induction x as [|c x IH]; intros b; simpl.
  - reflexivity.
  - unfold ends_ws. simpl. fold (ends_ws (is_space c) x).
    destruct (is_space c) eqn:E.
    + destruct b; rewrite IH; reflexivity.
    + rewrite IH. reflexivity.
Qed.

Lemma ends_ws_snoc (b : bool) (x : str) (c : ascii) :
  ends_ws b (x ++ [c]) = is_space c.
Proof. unfold ends_ws. rewrite fold_left_app. reflexivity. Qed.

Lemma collapse_ends_ws (x : str) :
  ends_ws false x = true -> exists x', collapse_from false x = x' ++ [" "%char].
Proof.
  induction x as [|c x IH] using rev_ind; intros H.
  - discriminate.
  - rewrite ends_ws_snoc in H. rewrite collapse_app. simpl. rewrite H.
    destruct (ends_ws false x) eqn:E.
    + destruct (IH eq_refl) as [x' Hx]. exists x'. rewrite Hx, app_nil_r.
      reflexivity.
    + exists (collapse_from false x). reflexivity.
Qed.

Lemma collapse_true_false (y : str) :
  collapse_from false y = collapse_from true y
  \/ collapse_from false y = " "%char :: collapse_from true y.
Proof.
  destruct y as [|c y]; simpl; [left; reflexivity|].
  destruct (is_space c); [right | left]; reflexivity.
Qed.

Lemma substr_collapse (a b : str) :
  substr a b -> substr (collapse_ws a) (collapse_ws b).
Proof.
  intros [p [q ->]]. unfold collapse_ws. rewrite !collapse_app.
  destruct (ends_ws false p) eqn:E.
  - destruct (collapse_ends_ws p E) as [p' Hp]. rewrite Hp.
    destruct (collapse_true_false a) as [H | H]; rewrite H.
    + exists (p' ++ [" "%char]), (collapse_from (ends_ws true a) q).
      rewrite <- !app_assoc. reflexivity.
    + exists p', (collapse_from (ends_ws true a) q).
      rewrite <- !app_assoc. reflexivity.
  - exists (collapse_from false p), (collapse_from (ends_ws false a) q).
    reflexivity.
Qed.

Lemma substr_norm (a b : str) : substr a b -> substr (norm a) (norm b).
Proof. intros H. apply substr_lower, substr_collapse, H. Qed.

Lemma substr_strip (s : str) : substr (strip s) s.
Proof.
  unfold strip, rstrip, lstrip.
  exists (take_while is_space s),
         (rev (take_while is_space (rev (drop_while is_space s)))).
  rewrite <- rev_app_distr, take_drop_while, rev_involutive, take_drop_while.
  reflexivity.
Qed.

Lemma norm_nonempty (s : str) : s <> [] -> norm s <> [].
Proof.
  destruct s as [|c s]; [congruence|]. intros _. unfold norm, collapse_ws.
  simpl. destruct (is_space c); discriminate.
Qed.

(** ** The block scanner *)

Lemma lit_ci_suffix (p s r : str) :
  lit_ci p s = Some r -> exists a, s = a ++ r /\ length a = length p.
Proof.
  intros H. apply lit_ci_spec in H. destruct H as [a [H1 H2]].
  exists a. split; [exact H1|].
  rewrite <- (lower_length a), H2. apply lower_length.
Qed.

Lemma find_ci_some (pat s : str) :
  forall k j, find_ci pat s k = Some j ->
    exists pre rest, s = pre ++ rest /\ j = k + length pre
                     /\ lit_ci pat rest <> None.
Proof.
  induction s as [|c s IH]; intros k j; simpl.
  - destruct (lit_ci pat []) eqn:E; [|discriminate].
    intros H. inversion H. subst. exists [], []. simpl.
    repeat split; [lia | congruence].
  - destruct (lit_ci pat (c :: s)) eqn:E.
    + intros H. inversion H. subst. exists [], (c :: s). simpl.
      repeat split; [lia | congruence].
    + intros H. destruct (IH _ _ H) as [pre [rest [-> [Hj Hl]]]].
      exists (c :: pre), rest. simpl. repeat split; [lia | exact Hl].
Qed.

(** A match of [block_re]: file name without comma, page of digits, both
    non-empty, and the inner text a part of the subject. *)
Lemma block_at_fields (s f p b : str) (n : nat) :
  block_at s = Some (f, p, b, n) ->
  f <> [] /\ forallb not_comma f = true
  /\ p <> [] /\ forallb is_digit p = true
  /\ substr b s.
Proof.
  unfold block_at.
  destruct (lit_ci start_lit s) as [s1|] eqn:E1; [|discriminate].
  destruct (is_empty (take_while not_comma s1)) eqn:Ef; [discriminate|].
  destruct (lit_ci page_lit (drop_while not_comma s1)) as [s2|] eqn:E2;
    [|discriminate].
  destruct (is_empty (take_while is_digit s2)) eqn:Ep; [discriminate|].
  destruct (lit_ci (close_lit ++ [nl; nl]) (drop_while is_digit s2))
    as [s3|] eqn:E3; [|discriminate].
  destruct (find_ci _ s3 0) as [k|] eqn:E4; [|discriminate].
  intros H. inversion H. subst f p b n. clear H.
  split; [intros H; rewrite H in Ef; discriminate|].
  split; [apply take_while_all|].
  split; [intros H; rewrite H in Ep; discriminate|].
  split; [apply take_while_all|].
  apply lit_ci_suffix in E1. destruct E1 as [a1 [-> _]].
  apply lit_ci_suffix in E2. destruct E2 as [a2 [H2 _]].
  apply lit_ci_suffix in E3. destruct E3 as [a3 [H3 _]].
  exists (a1 ++ take_while not_comma s1 ++ a2 ++ take_while is_digit s2 ++ a3),
         (skipn k s3).
  rewrite <- !app_assoc. f_equal.
  rewrite <- (take_drop_while not_comma s1) at 1. f_equal.
  rewrite H2. f_equal.
  rewrite <- (take_drop_while is_digit s2) at 1. f_equal.
  rewrite H3. f_equal. symmetry. apply firstn_skipn.
Qed.

Lemma substr_cons (a s : str) (c : ascii) : substr a s -> substr a (c :: s).
Proof. intros [p [q ->]]. exists (c :: p), q. reflexivity. Qed.

Lemma finditer_from_fields (s : str) :
  forall skip f p b, In (f, p, b) (finditer_from skip s) ->
    f <> [] /\ forallb not_comma f = true
    /\ p <> [] /\ forallb is_digit p = true
    /\ substr b s.
Proof.
  induction s as [|c s IH]; intros skip f p b; simpl; [contradiction|].
  assert (Hrec : forall k, In (f, p, b) (finditer_from k s) ->
            f <> [] /\ forallb not_comma f = true
            /\ p <> [] /\ forallb is_digit p = true /\ substr b (c :: s)).
  { intros k H. destruct (IH _ _ _ _ H) as [H1 [H2 [H3 [H4 H5]]]].
    repeat split; auto. apply substr_cons. exact H5. }
  destruct skip as [|k]; [|apply Hrec].
  destruct (block_at (c :: s)) as [[[[f' p'] b'] n]|] eqn:E; [|apply Hrec].
  intros [H | H]; [|exact (Hrec _ H)].
  inversion H. subst. exact (block_at_fields _ _ _ _ _ E).
Qed.

Lemma finditer_fields (context f p b : str) :
  In (f, p, b) (finditer context) ->
  f <> [] /\ forallb not_comma f = true
  /\ p <> [] /\ forallb is_digit p = true
  /\ substr b context.
Proof. apply finditer_from_fields. Qed.

(** ** The choice among the blocks *)

Lemma score_gt (i j : nat) :
  Qgt_bool (score_of (Z.of_nat i)) (score_of (Z.of_nat j)) = (i <? j).
Proof.
  unfold Qgt_bool, score_of, Qle_bool. simpl Qnum. simpl Qden.
  rewrite !Z2Pos.id by lia. rewrite !Z.mul_1_l.
  destruct (i <? j) eqn:E.
  - apply Nat.ltb_lt in E. apply negb_true_iff, Z.leb_gt. lia.
  - apply Nat.ltb_ge in E. apply negb_false_iff, Z.leb_le. lia.
Qed.

Lemma score_gt_init (i : nat) :
  Qgt_bool (score_of (Z.of_nat i)) (inject_Z (-1)) = true.
Proof.
  unfold Qgt_bool, score_of, Qle_bool, inject_Z. simpl Qnum. simpl Qden.
  apply negb_true_iff, Z.leb_gt. lia.
Qed.

(** One iteration, by the position of the quote in the block. *)
Lemma block_step_find (q : str) (st : Best) (m : str * str * str) :
  q <> [] ->
  block_step q st m =
  match find_opt (norm (snd m)) (norm q) with
  | Some i =>
      if Qgt_bool (score_of (Z.of_nat i)) (best_match_score st)
      then MkBest (score_of (Z.of_nat i)) (Some (fst (fst m)))
             (Some (snd (fst m)))
      else st
  | None => st
  end.
Proof.
  intros Hq. destruct m as [[f p] b]. unfold block_step. simpl fst. simpl snd.
  assert (Ht : truthy (norm q) = true)
    by (apply truthy_iff, norm_nonempty, Hq).
  rewrite Ht. unfold contains, find. simpl andb.
  destruct (find_opt (norm b) (norm q)) as [i|]; [|reflexivity].
  assert (E : (Z.of_nat i =? -1)%Z = false) by (apply Z.eqb_neq; lia).
  rewrite E. reflexivity.
Qed.

Lemma fold_block_step (q : str) (found : option str * option str)
  (blocks : list (str * str * str)) :
  q <> [] ->
  forall cur,
    fold_left (block_step q) blocks (state_of found cur)
    = state_of found (earliest (norm q) blocks cur).
Proof.
  intros Hq. induction blocks as [|m rest IH]; intros cur; simpl.
  - reflexivity.
  - rewrite block_step_find by exact Hq.
    destruct (find_opt (norm (snd m)) (norm q)) as [i|]; [|apply IH].
    destruct cur as [[j m']|].
    + simpl state_of at 1. simpl best_match_score. rewrite score_gt.
      destruct (i <? j).
      * exact (IH (Some (i, m))).
      * exact (IH (Some (j, m'))).
    + simpl state_of at 1. simpl best_match_score. rewrite score_gt_init.
      exact (IH (Some (i, m))).
Qed.

(** What [earliest] returns: nothing when no block holds the quote, else a
    block at the least position, before which every block holds the quote
    later or not at all. *)
Lemma earliest_spec (nq : str) (blocks : list (str * str * str)) :
  forall cur,
    (earliest nq blocks cur = cur
     /\ forall m i, In m blocks -> find_opt (norm (snd m)) nq = Some i ->
          exists j x, cur = Some (j, x) /\ j <= i)
    \/ exists i m pre post,
         earliest nq blocks cur = Some (i, m)
         /\ blocks = pre ++ m :: post
         /\ find_opt (norm (snd m)) nq = Some i
         /\ (forall j x, cur = Some (j, x) -> i < j)
         /\ (forall m' j, In m' pre ->
               find_opt (norm (snd m')) nq = Some j -> i < j)
         /\ (forall m' j, In m' post ->
               find_opt (norm (snd m')) nq = Some j -> i <= j).
Proof.
  induction blocks as [|m rest IH]; intros cur; simpl.
  - left. split; [reflexivity|]. intros m i [].
  - destruct (find_opt (norm (snd m)) nq) as [i|] eqn:Em.
    + assert (Hnew : (forall j x, cur = Some (j, x) -> i < j) ->
          exists i0 m0 pre post,
            earliest nq rest (Some (i, m)) = Some (i0, m0)
            /\ m :: rest = pre ++ m0 :: post
            /\ find_opt (norm (snd m0)) nq = Some i0
            /\ (forall j x, cur = Some (j, x) -> i0 < j)
            /\ (forall m' j, In m' pre ->
                  find_opt (norm (snd m')) nq = Some j -> i0 < j)
            /\ (forall m' j, In m' post ->
                  find_opt (norm (snd m')) nq = Some j -> i0 <= j)).
      { intros Hcur.
        destruct (IH (Some (i, m)))
          as [[He Hall] | [i0 [m0 [pre [post [He [Hr [Hf [Hc [Hp Hq]]]]]]]]]].
        - exists i, m, [], rest. rewrite He.
          repeat split; auto.
          + intros m' j [].
          + intros m' j Hin Hj. destruct (Hall _ _ Hin Hj) as [j0 [x [E Hle]]].
            inversion E. subst. exact Hle.
        - exists i0, m0, (m :: pre), post. rewrite He, Hr.
          pose proof (Hc i m eq_refl) as Hlt.
          repeat split; auto.
          + intros j x E. specialize (Hcur j x E). lia.
          + intros m' j [<- | Hin] Hj.
            * rewrite Em in Hj. inversion Hj. subst. exact Hlt.
            * exact (Hp _ _ Hin Hj). }
      destruct cur as [[j m']|].
      * destruct (i <? j) eqn:E.
        -- right. apply Hnew. intros j0 x H. inversion H. subst.
           apply Nat.ltb_lt. exact E.
        -- apply Nat.ltb_ge in E.
           destruct (IH (Some (j, m')))
             as [[He Hall] | [i0 [m0 [pre [post [He [Hr [Hf [Hc [Hp Hq]]]]]]]]]].
           ++ left. split; [exact He|]. intros m1 i1 [<- | Hin] H1.
              ** rewrite Em in H1. inversion H1. subst. eauto.
              ** exact (Hall _ _ Hin H1).
           ++ right. exists i0, m0, (m :: pre), post. rewrite He, Hr.
              pose proof (Hc j m' eq_refl) as Hlt.
              repeat split; auto.
              intros m1 j1 [<- | Hin] H1.
              ** rewrite Em in H1. inversion H1. subst. lia.
              ** exact (Hp _ _ Hin H1).
      * right. apply Hnew. intros j x H. discriminate.
    + destruct (IH cur)
        as [[He Hall] | [i0 [m0 [pre [post [He [Hr [Hf [Hc [Hp Hq]]]]]]]]]].
      * left. split; [exact He|]. intros m1 i1 [<- | Hin] H1.
        -- rewrite Em in H1. discriminate.
        -- exact (Hall _ _ Hin H1).
      * right. exists i0, m0, (m :: pre), post. rewrite He, Hr.
        repeat split; auto.
        intros m1 j1 [<- | Hin] H1.
        -- rewrite Em in H1. discriminate.
        -- exact (Hp _ _ Hin H1).
Qed.

Lemma select_block_some (q context : str) (i : nat) (m : str * str * str) :
  select_block q context = Some (i, m) ->
  exists pre post,
    finditer context = pre ++ m :: post
    /\ find_opt (norm (snd m)) (norm q) = Some i
    /\ (forall m' j, In m' pre ->
          find_opt (norm (snd m')) (norm q) = Some j -> i < j)
    /\ (forall m' j, In m' post ->
          find_opt (norm (snd m')) (norm q) = Some j -> i <= j).
Proof.
  unfold select_block. destruct (truthy context); [|discriminate].
  intros H.
  destruct (earliest_spec (norm q) (finditer context) None)
    as [[He _] | [i0 [m0 [pre [post [He [Hr [Hf [_ [Hp Hq]]]]]]]]]].
  - rewrite He in H. discriminate.
  - rewrite He in H. inversion H. subst. exists pre, post. auto.
Qed.

Lemma select_block_none (q context : str) :
  select_block q context = None <->
  forall m, In m (finditer context) ->
            find_opt (norm (snd m)) (norm q) = None.
Proof.
  unfold select_block. destruct context as [|c context].
  - simpl. split; [intros _ m [] | reflexivity].
  - change (truthy (c :: context)) with true. cbv iota.
    destruct (earliest_spec (norm q) (finditer (c :: context)) None)
      as [[He Hall] | [i0 [m0 [pre [post [He [Hr [Hf _]]]]]]]].
    + rewrite He. split; [|reflexivity]. intros _ m Hin.
      destruct (find_opt (norm (snd m)) (norm q)) as [i|] eqn:E;
        [|reflexivity].
      destruct (Hall _ _ Hin E) as [j [x [H _]]]. discriminate.
    + rewrite He. split; [discriminate|]. intros H.
      assert (Hin : In m0 (finditer (c :: context)))
        by (rewrite Hr; apply in_or_app; right; left; reflexivity).
      rewrite (H _ Hin) in Hf. discriminate.
Qed.

(** The evidence of a Met response with a quote: the citation of the
    selected block when some scanned block holds the quote, else the
    model's own citation when it gave one, else the evidence text as it
    came. *)
Lemma parse_met (text context g1 : str) :
  re_search status_at text = Some tt ->
  re_search evidence_at text = Some g1 ->
  quote_text_of (evidence_text_of g1) <> [] ->
  let ev := evidence_text_of g1 in
  let q := quote_text_of ev in
  parse_gemini_response text context =
  (Met,
   match select_block q context with
   | Some (_, m) => format_evidence (fst (fst m)) (snd (fst m)) q
   | None =>
       if opt_truthy (fst (found_of ev)) && opt_truthy (snd (found_of ev))
       then format_evidence (opt_str (fst (found_of ev)))
              (opt_str (snd (found_of ev))) q
       else ev
   end).
Proof.
  intros Hs He Hq ev q. unfold parse_gemini_response. rewrite Hs, He.
  fold ev. fold q.
  assert (Hev : truthy ev = true).
  { apply truthy_iff. intros H. apply Hq. fold ev. rewrite H. reflexivity. }
  assert (Hqt : truthy q = true) by (apply truthy_iff; exact Hq).
  rewrite Hev. cbv iota. unfold rederive, select_block. rewrite Hqt.
  simpl andb. destruct (truthy context) eqn:Ec.
  - change (MkBest (inject_Z (-1)) (fst (found_of ev)) (snd (found_of ev)))
      with (state_of (found_of ev) None).
    rewrite fold_block_step by exact Hq.
    destruct (earliest (norm q) (finditer context) None) as [[i m]|] eqn:E.
    + assert (Hsel : select_block q context = Some (i, m))
        by (unfold select_block; rewrite Ec; exact E).
      destruct (select_block_some _ _ _ _ Hsel) as [pre [post [Hr _]]].
      destruct m as [[f p] b].
      assert (Hin : In (f, p, b) (finditer context))
        by (rewrite Hr; apply in_or_app; right; left; reflexivity).
      destruct (finditer_fields _ _ _ _ Hin) as [Hf [_ [Hp _]]].
      simpl. apply truthy_iff in Hf. apply truthy_iff in Hp.
      rewrite Hf, Hp. reflexivity.
    + simpl state_of. simpl actual_fname. simpl actual_page. cbn [fst snd].
      destruct (opt_truthy (fst (found_of ev)) && opt_truthy (snd (found_of ev)));
        reflexivity.
  - cbn [fst snd].
    destruct (opt_truthy (fst (found_of ev)) && opt_truthy (snd (found_of ev)));
      reflexivity.
Qed.

(** ** C1: when the quote of a Met verdict is verified *)

(** C1, as the code has it.  For a response with status Met, an evidence
    section and a non-empty quote: when some block scanned in the context
    holds the quote (whitespace collapsed, lower case on both sides), the
    evidence cites such a block and the quote occurs, normalised, in the
    normalised context; when no scanned block holds it, the verdict is
    Met all the same, with the model's own citation and the quote, or the
    evidence text as it came. *)
Theorem C1_verified_when_rederived (text context g1 : str) :
  status_occurs text ->
  re_search evidence_at text = Some g1 ->
  quote_text_of (evidence_text_of g1) <> [] ->
  let q := quote_text_of (evidence_text_of g1) in
  ((exists m, In m (finditer context)
              /\ contains (norm (snd m)) (norm q) = true) ->
   contains (norm context) (norm q) = true
   /\ exists f p b,
        In (f, p, b) (finditer context)
        /\ contains (norm b) (norm q) = true
        /\ parse_gemini_response text context
           = (L "Met", format_evidence f p q))
  /\ ((forall m, In m (finditer context) ->
                 contains (norm (snd m)) (norm q) = false) ->
      parse_gemini_response text context
      = (L "Met", claimed_evidence (evidence_text_of g1))).
Proof.
  intros Hs He Hq q. apply status_search_iff in Hs.
  pose proof (parse_met text context g1 Hs He Hq) as Hp. cbv zeta in Hp.
  fold q in Hp. split.
  - intros [m0 [Hin0 Hc0]].
    destruct (select_block q context) as [[i m]|] eqn:Esel.
    + destruct (select_block_some _ _ _ _ Esel) as [pre [post [Hr [Hf _]]]].
      destruct m as [[f p] b]. simpl in Hf, Hp.
      assert (Hin : In (f, p, b) (finditer context))
        by (rewrite Hr; apply in_or_app; right; left; reflexivity).
      assert (Hc : contains (norm b) (norm q) = true)
        by (unfold contains; rewrite Hf; reflexivity).
      split.
      * apply contains_iff. apply substr_trans with (norm b).
        -- apply contains_iff. exact Hc.
        -- apply substr_norm. apply (finditer_fields _ _ _ _ Hin).
      * exists f, p, b. auto.
    + pose proof (proj1 (select_block_none q context) Esel m0 Hin0) as Hn.
      unfold contains in Hc0. rewrite Hn in Hc0. discriminate.
  - intros Hall.
    assert (Esel : select_block q context = None).
    { apply select_block_none. intros m Hin. specialize (Hall m Hin).
      unfold contains in Hall.
      destruct (find_opt (norm (snd m)) (norm q)); [discriminate|reflexivity]. }
    rewrite Esel in Hp. exact Hp.
Qed.

Lemma C1_witness :
  contains (norm ex_context) (norm (strip ex_quote)) = true
  /\ parse_gemini_response (response (L "G.pdf") ex_quote) ex_context
     = (L "Met", format_evidence (L "F.pdf") (L "7") (strip ex_quote)).
Proof.
  assert (Hs : status_occurs (response (L "G.pdf") ex_quote)).
  { apply status_search_iff. vm_compute. reflexivity. }
  destruct (C1_verified_when_rederived (response (L "G.pdf") ex_quote)
              ex_context
              (L " (From Filename: G.pdf, Page: 1) " ++ [dquote] ++ ex_quote
                 ++ [dquote])
              Hs ltac:(vm_compute; reflexivity)
              ltac:(vm_compute; discriminate)) as [H _].
  destruct H as [Hc _].
  - eexists. split; [left; reflexivity|]. vm_compute. reflexivity.
  - split; [exact Hc|]. vm_compute. reflexivity.
Defined.

(** A Met response whose quote is in no page of the context keeps the
    model's citation and the quote: a formatted citation-and-quote whose
    quote is absent from the context. *)
Lemma C1_counterexample :
  parse_gemini_response (response (L "G.pdf") ex_absent_quote) ex_context
  = (L "Met", format_evidence (L "G.pdf") (L "1") ex_absent_quote)
  /\ contains (norm ex_context) (norm ex_absent_quote) = false.
Proof. split; vm_compute; reflexivity. Qed.

(** ** C2: the citation is taken from the block that holds the quote *)

Lemma forallb_L_app (f : ascii -> bool) (a b : str) :
  forallb f a = true -> forallb f b = true -> forallb f (a ++ b) = true.
Proof. intros Ha Hb. rewrite forallb_app, Ha, Hb. reflexivity. Qed.

Lemma response_status (G Q : str) :
  re_search status_at (response G Q) = Some tt.
Proof. reflexivity. Qed.

Lemma response_evidence (G Q : str) :
  re_search evidence_at (response G Q)
  = Some (L " (From Filename: " ++ G ++ L ", Page: 1) " ++ [dquote] ++ Q
            ++ [dquote]).
Proof. reflexivity. Qed.

Lemma response_evidence_text (G Q : str) :
  evidence_text_of (L " (From Filename: " ++ G ++ L ", Page: 1) "
                      ++ [dquote] ++ Q ++ [dquote])
  = L "(From Filename: " ++ G ++ L ", Page: 1) " ++ [dquote] ++ Q
      ++ [dquote].
Proof.
  unfold evidence_text_of, strip.
  change (lstrip (L " (From Filename: " ++ G ++ L ", Page: 1) "
                    ++ [dquote] ++ Q ++ [dquote]))
    with (L "(From Filename: " ++ G ++ L ", Page: 1) " ++ [dquote] ++ Q
            ++ [dquote]).
  rewrite !app_assoc. apply rstrip_keeps_last. reflexivity.
Qed.

Lemma response_quote_text (G Q : str) :
  forallb not_dquote G = true -> forallb not_dquote Q = true ->
  quote_text_of (L "(From Filename: " ++ G ++ L ", Page: 1) " ++ [dquote]
                   ++ Q ++ [dquote])
  = strip Q.
Proof.
  intros HG HQ. unfold quote_text_of, quote_match.
  rewrite (app_assoc (L "(From Filename: ") G).
  rewrite (app_assoc (L "(From Filename: " ++ G) (L ", Page: 1) ")).
  rewrite drop_while_app.
  2:{ apply forallb_L_app; [apply forallb_L_app|]; [reflexivity | exact HG |
      reflexivity]. }
  change (drop_while not_dquote ([dquote] ++ Q ++ [dquote]))
    with (dquote :: Q ++ [dquote]).
  cbv beta iota.
  rewrite drop_while_app by exact HQ.
  rewrite take_while_app by exact HQ.
  simpl. rewrite app_nil_r. reflexivity.
Qed.

(** C2.  The context is scanned into a block with file [F], page 7 and an
    inner text that holds the quote [Q] (whitespace collapsed, lower case
    on both sides); the response has status Met and an evidence line that
    cites file [G], page 1, and quotes [Q]; [G] and [Q] hold no double
    quote and [Q] is not blank.  Then the verdict is Met and its evidence
    cites a scanned block that holds the quote at the least in-block
    position, the first scanned among blocks with that position, whatever
    [G] is; it cites file [F], page 7 when no block with another file or
    page holds the quote. *)
Theorem C2_citation_from_block (context F B G Q : str) :
  forallb not_dquote G = true ->
  forallb not_dquote Q = true ->
  strip Q <> [] ->
  In (F, L "7", B) (finditer context) ->
  contains (norm B) (norm Q) = true ->
  exists i f p b pre post,
    finditer context = pre ++ (f, p, b) :: post
    /\ find_opt (norm b) (norm (strip Q)) = Some i
    /\ (forall m j, In m pre ->
          find_opt (norm (snd m)) (norm (strip Q)) = Some j -> i < j)
    /\ (forall m j, In m post ->
          find_opt (norm (snd m)) (norm (strip Q)) = Some j -> i <= j)
    /\ parse_gemini_response (response G Q) context
       = (L "Met", format_evidence f p (strip Q))
    /\ ((forall f' p' b', In (f', p', b') (finditer context) ->
           contains (norm b') (norm (strip Q)) = true ->
           f' = F /\ p' = L "7") ->
        parse_gemini_response (response G Q) context
        = (L "Met", format_evidence F (L "7") (strip Q))).
Proof.
  intros HG HQ Hne Hin Hc.
  pose proof (parse_met (response G Q) context _ (response_status G Q)
                (response_evidence G Q)) as Hp.
  cbv zeta in Hp. rewrite response_evidence_text in Hp.
  rewrite response_quote_text in Hp by assumption.
  specialize (Hp Hne).
  assert (HcB : contains (norm B) (norm (strip Q)) = true).
  { apply contains_iff. apply substr_trans with (norm Q).
    - apply substr_norm, substr_strip.
    - apply contains_iff. exact Hc. }
  destruct (select_block (strip Q) context) as [[i m]|] eqn:Esel.
  - destruct (select_block_some _ _ _ _ Esel) as [pre [post [Hr [Hf [Hpre Hpost]]]]].
    destruct m as [[f p] b]. simpl in Hf, Hp.
    exists i, f, p, b, pre, post.
    split; [exact Hr|]. split; [exact Hf|]. split; [exact Hpre|].
    split; [exact Hpost|]. split; [exact Hp|].
    intros Honly.
    assert (Hin' : In (f, p, b) (finditer context))
      by (rewrite Hr; apply in_or_app; right; left; reflexivity).
    destruct (Honly f p b Hin') as [-> ->].
    + unfold contains. rewrite Hf. reflexivity.
    + exact Hp.
  - pose proof (proj1 (select_block_none _ _) Esel _ Hin) as Hn.
    simpl in Hn. unfold contains in HcB. rewrite Hn in HcB. discriminate.
Qed.

Lemma C2_witness :
  parse_gemini_response (response (L "G.pdf") ex_quote) ex_context
  = (L "Met", format_evidence (L "F.pdf") (L "7") (strip ex_quote)).
Proof.
  destruct (C2_citation_from_block ex_context (L "F.pdf")
              (L "Members are told within 14 calendar days." ++ nlnl)
              (L "G.pdf") ex_quote
              ltac:(reflexivity) ltac:(reflexivity)
              ltac:(vm_compute; discriminate)
              ltac:(left; vm_compute; reflexivity)
              ltac:(vm_compute; reflexivity))
    as [i [f [p [b [pre [post [_ [_ [_ [_ [_ H]]]]]]]]]]].
  apply H. intros f' p' b' Hin _.
  vm_compute in Hin. destruct Hin as [Hin | []].
  inversion Hin. split; reflexivity.
Defined.

(** ** C10: pages without a page number *)

Lemma parse_no_block (text context g1 : str) :
  status_occurs text ->
  re_search evidence_at text = Some g1 ->
  quote_text_of (evidence_text_of g1) <> [] ->
  (forall m, In m (finditer context) ->
             contains (norm (snd m))
               (norm (quote_text_of (evidence_text_of g1))) = false) ->
  parse_gemini_response text context
  = (L "Met", claimed_evidence (evidence_text_of g1)).
Proof.
  intros Hs He Hq Hall. apply status_search_iff in Hs.
  pose proof (parse_met text context g1 Hs He Hq) as Hp. cbv zeta in Hp.
  assert (Esel : select_block (quote_text_of (evidence_text_of g1)) context
                 = None).
  { apply select_block_none. intros m Hin. specialize (Hall m Hin).
    unfold contains in Hall.
    destruct (find_opt _ _); [discriminate | reflexivity]. }
  rewrite Esel in Hp. exact Hp.
Qed.

Lemma block_at_no_page (f rest : str) :
  forallb not_comma f = true ->
  block_at (start_marker f (L "N/A") ++ rest) = None.
Proof.
  intros Hf. unfold block_at, start_marker.
  rewrite <- !app_assoc.
  change (L "--- START (Filename: ") with start_lit.
  rewrite lit_ci_app.
  rewrite take_while_app by exact Hf.
  rewrite drop_while_app by exact Hf.
  change (take_while not_comma (L ", Page: " ++ L "N/A" ++ L ") ---" ++ rest))
    with (@nil ascii).
  rewrite app_nil_r.
  destruct (is_empty f); [reflexivity|].
  reflexivity.
Qed.

Lemma digits_not_na (p : str) : forallb is_digit p = true -> p <> L "N/A".
Proof. intros H E. subst p. vm_compute in H. discriminate. Qed.

(** C10.  For a stored page without page number the block markers read
    [Page: N/A].  The scanner never returns a block whose page is N/A,
    since a page it returns is a run of digits, and, the file name being
    free of commas, it cannot match at the START marker of that block.
    When no scanned block holds the quote the evidence is the model's own
    citation with the quote, or the evidence text as it came. *)
Theorem C10_page_missing (ord : SetOrder) (use_snippets : bool)
  (question : str) (doc : Doc) :
  page_number doc = None ->
  let f := filename_of doc in
  block_text ord use_snippets question doc
  = (if use_snippets then
       match snippets_of ord question doc with
       | [] => []
       | snippets =>
           join nlnl ([start_marker f (L "N/A")] ++ snippets
                        ++ [end_marker f (L "N/A")]) ++ nlnl
       end
     else nlnl ++ start_marker f (L "N/A") ++ nlnl ++ content_of doc ++ nlnl
            ++ end_marker f (L "N/A") ++ nlnl)
  /\ (forallb not_comma f = true ->
      forall rest, block_at (start_marker f (L "N/A") ++ rest) = None)
  /\ (forall context f' p b,
        In (f', p, b) (finditer context) ->
        p <> L "N/A" /\ p <> [] /\ forallb is_digit p = true)
  /\ (forall text context g1,
        status_occurs text ->
        re_search evidence_at text = Some g1 ->
        quote_text_of (evidence_text_of g1) <> [] ->
        (forall m, In m (finditer context) ->
           contains (norm (snd m))
             (norm (quote_text_of (evidence_text_of g1))) = false) ->
        parse_gemini_response text context
        = (L "Met", claimed_evidence (evidence_text_of g1))).
Proof.
  intros Hp f. split; [|split; [|split]].
  - unfold block_text, page_of. rewrite Hp. reflexivity.
  - intros Hf rest. apply block_at_no_page. exact Hf.
  - intros context f' p b Hin.
    destruct (finditer_fields _ _ _ _ Hin) as [_ [_ [H1 [H2 _]]]].
    split; [apply digits_not_na; exact H2 | split; assumption].
  - intros text context g1. apply parse_no_block.
Qed.

(** A store whose only page has no page number: the quote is in the
    context, no block is scanned, and the evidence keeps the citation of
    the response. *)
Lemma C10_witness :
  contains (norm ex_context_no_page) (norm ex_quote_in_page) = true
  /\ finditer ex_context_no_page = []
  /\ parse_gemini_response (response (L "G.pdf") ex_quote_in_page)
       ex_context_no_page
     = (L "Met", format_evidence (L "G.pdf") (L "1") ex_quote_in_page).
Proof.
  split; [vm_compute; reflexivity|].
  assert (Hs : finditer ex_context_no_page = []) by (vm_compute; reflexivity).
  split; [exact Hs|].
  destruct (C10_page_missing insertion_order true ex_question ex_doc_no_page
              eq_refl) as [_ [_ [_ H]]].
  rewrite (H (response (L "G.pdf") ex_quote_in_page) ex_context_no_page
             (L " (From Filename: G.pdf, Page: 1) " ++ [dquote]
                ++ ex_quote_in_page ++ [dquote])).
  - vm_compute. reflexivity.
  - apply status_search_iff. vm_compute. reflexivity.
  - vm_compute. reflexivity.
  - vm_compute. discriminate.
  - rewrite Hs. intros m [].
Defined.

(** ** C3: what the context depends on *)











(** ** C4: the scanner reads back the blocks of the Assembler *)

Lemma join_snoc_ne (sep : str) (parts : list str) (e : str) :
  parts <> [] -> join sep (parts ++ [e]) = join sep parts ++ sep ++ e.
Proof.
  induction parts as [|p rest IH]; [congruence|]. intros _.
  destruct rest as [|r rest]; [reflexivity|].
  change (join sep ((p :: r :: rest) ++ [e]))
    with (p ++ sep ++ join sep ((r :: rest) ++ [e])).
  rewrite IH by discriminate.
  change (join sep (p :: r :: rest)) with (p ++ sep ++ join sep (r :: rest)).
  rewrite <- !app_assoc. reflexivity.
Qed.

(** Every block of the Assembler is a START marker and an END marker with
    the same file name and page around the inner text. *)
Lemma block_text_shape (ord : SetOrder) (use_snippets : bool)
  (question : str) (doc : Doc) :
  block_text ord use_snippets question doc <> [] ->
  block_text ord use_snippets question doc
  = lead_of use_snippets
      ++ start_marker (filename_of doc) (page_of doc) ++ nlnl
      ++ inner_of ord use_snippets question doc
      ++ end_marker (filename_of doc) (page_of doc) ++ nlnl.
Proof.
  unfold block_text, inner_of, lead_of. destruct use_snippets.
  - destruct (snippets_of ord question doc) as [|s ss]; [congruence|].
    intros _.
    change ([start_marker (filename_of doc) (page_of doc)] ++ (s :: ss)
              ++ [end_marker (filename_of doc) (page_of doc)])
      with (start_marker (filename_of doc) (page_of doc)
              :: ((s :: ss) ++ [end_marker (filename_of doc) (page_of doc)])).
    change (join nlnl (start_marker (filename_of doc) (page_of doc)
              :: ((s :: ss) ++ [end_marker (filename_of doc) (page_of doc)])))
      with (start_marker (filename_of doc) (page_of doc) ++ nlnl
              ++ join nlnl ((s :: ss)
                   ++ [end_marker (filename_of doc) (page_of doc)])).
    rewrite join_snoc_ne by discriminate.
    rewrite <- !app_assoc. reflexivity.
  - intros _. rewrite <- !app_assoc. reflexivity.
Qed.

Lemma lit_ci_app_some (p x r y : str) :
  lit_ci p x = Some r -> lit_ci p (x ++ y) = Some (r ++ y).
Proof.
  intros H. apply lit_ci_spec in H. destruct H as [a [-> Ha]].
  apply lit_ci_spec. exists a. rewrite <- app_assoc. auto.
Qed.

Lemma lit_ci_length (p x r : str) :
  lit_ci p x = Some r -> length p <= length x.
Proof.
  intros H. apply lit_ci_suffix in H. destruct H as [a [-> Ha]].
  rewrite length_app. lia.
Qed.

Lemma lit_ci_app_none (p x y : str) :
  lit_ci p x = None -> length p <= length x -> lit_ci p (x ++ y) = None.
Proof.
  revert x. induction p as [|c p IH]; intros x; simpl.
  - discriminate.
  - destruct x as [|d x]; simpl; [lia|].
    destruct (ascii_eqb (lower_char c) (lower_char d)); [|reflexivity].
    intros H Hl. apply IH; [exact H | lia].
Qed.

Lemma find_ci_length (pat s : str) :
  forall k j, find_ci pat s k = Some j -> length pat <= length s.
Proof.
  induction s as [|c s IH]; intros k j; simpl.
  - destruct (lit_ci pat []) eqn:E; [|discriminate].
    intros _. exact (lit_ci_length _ _ _ E).
  - destruct (lit_ci pat (c :: s)) eqn:E.
    + intros _. exact (lit_ci_length _ _ _ E).
    + intros H. specialize (IH _ _ H). simpl. lia.
Qed.

(** The first match of a literal stays the first when text is appended. *)
Lemma find_ci_extend (pat s y : str) :
  forall k j, find_ci pat s k = Some j -> find_ci pat (s ++ y) k = Some j.
Proof.
  induction s as [|c s IH]; intros k j; simpl.
  - destruct (lit_ci pat []) eqn:E; [|discriminate].
    intros H. inversion H. subst.
    destruct pat; [|discriminate]. destruct y; reflexivity.
  - destruct (lit_ci pat (c :: s)) eqn:E.
    + intros H. inversion H. subst.
      change (c :: s ++ y) with ((c :: s) ++ y).
      rewrite (lit_ci_app_some _ _ _ y E). reflexivity.
    + intros H.
      change (c :: s ++ y) with ((c :: s) ++ y).
      rewrite lit_ci_app_none.
      * apply IH. exact H.
      * exact E.
      * pose proof (find_ci_length _ _ _ _ H). simpl. lia.
Qed.

Lemma finditer_skip (a y : str) :
  finditer_from (length a) (a ++ y) = finditer_from 0 y.
Proof.
  induction a as [|c a IH]; simpl; [reflexivity | exact IH].
Qed.

Lemma finditer_nl (y : str) : finditer_from 0 (nl :: y) = finditer_from 0 y.
Proof. reflexivity. Qed.

Lemma finditer_match (c : ascii) (r f p b : str) (n : nat) :
  block_at (c :: r) = Some (f, p, b, n) ->
  finditer_from 0 (c :: r) = (f, p, b) :: finditer_from (n - 1) r.
Proof. intros H. simpl. rewrite H. reflexivity. Qed.

Lemma take_while_app_stop (f : ascii -> bool) (x : str) (c : ascii) (y : str) :
  forallb f x = true -> f c = false -> take_while f (x ++ c :: y) = x.
Proof.
  intros Hx Hc. rewrite take_while_app by exact Hx.
  rewrite take_while_stop by exact Hc. apply app_nil_r.
Qed.

Lemma drop_while_app_stop (f : ascii -> bool) (x : str) (c : ascii) (y : str) :
  forallb f x = true -> f c = false -> drop_while f (x ++ c :: y) = c :: y.
Proof.
  intros Hx Hc. rewrite drop_while_app by exact Hx.
  apply drop_while_stop. exact Hc.
Qed.

(** [block_re] matches at the START marker of a well-formed block, with the
    groups the Assembler wrote, up to the end of its END marker. *)
Lemma block_at_emitted (f p inner y : str) :
  well_formed_block (f, p, inner) = true ->
  block_at (start_marker f p ++ nlnl ++ inner ++ end_marker f p ++ y)
  = Some (f, p, inner,
          length (start_marker f p ++ nlnl ++ inner ++ end_marker f p)).
Proof.
  unfold well_formed_block. rewrite !andb_true_iff.
  intros [[[[Hf Hfc] Hp] Hpd] Hfind].
  destruct (find_ci (end_pattern f p) (inner ++ end_pattern f p) 0)
    as [k|] eqn:Ek; [|discriminate].
  apply Nat.eqb_eq in Hfind. subst k.
  unfold block_at, start_marker.
  rewrite <- !app_assoc.
  change (L "--- START (Filename: ") with start_lit.
  rewrite lit_ci_app.
  change (L ", Page: " ++ p ++ L ") ---" ++ nlnl ++ inner ++ end_marker f p ++ y)
    with (","%char :: L " Page: " ++ p ++ L ") ---" ++ nlnl ++ inner
            ++ end_marker f p ++ y).
  rewrite take_while_app_stop by (exact Hfc || reflexivity).
  rewrite drop_while_app_stop by (exact Hfc || reflexivity).
  apply truthy_iff in Hf. apply truthy_iff in Hp.
  destruct f as [|cf f]; [congruence|]. cbv beta iota delta [is_empty].
  change (","%char :: L " Page: " ++ p ++ L ") ---" ++ nlnl ++ inner
            ++ end_marker (cf :: f) p ++ y)
    with (page_lit ++ p ++ ")"%char :: L " ---" ++ nlnl ++ inner
            ++ end_marker (cf :: f) p ++ y).
  rewrite lit_ci_app.
  rewrite take_while_app_stop by (exact Hpd || reflexivity).
  rewrite drop_while_app_stop by (exact Hpd || reflexivity).
  destruct p as [|cp p]; [congruence|]. cbv beta iota.
  change (")"%char :: L " ---" ++ nlnl ++ inner
            ++ end_marker (cf :: f) (cp :: p) ++ y)
    with ((close_lit ++ [nl; nl]) ++ inner
            ++ end_marker (cf :: f) (cp :: p) ++ y).
  rewrite lit_ci_app.
  change (end_marker (cf :: f) (cp :: p))
    with (end_pattern (cf :: f) (cp :: p)).
  rewrite app_assoc.
  rewrite (find_ci_extend _ _ y _ _ Ek).
  rewrite <- (app_assoc inner).
  rewrite firstn_app, firstn_all, Nat.sub_diag, firstn_O, app_nil_r.
  f_equal. f_equal.
  rewrite !length_app. simpl. lia.
Qed.

Lemma finditer_emitted (f p inner y : str) :
  well_formed_block (f, p, inner) = true ->
  finditer_from 0 (start_marker f p ++ nlnl ++ inner ++ end_marker f p ++ y)
  = (f, p, inner) :: finditer_from 0 y.
Proof.
  intros H. pose proof (block_at_emitted f p inner y H) as Hb.
  remember (start_marker f p ++ nlnl ++ inner ++ end_marker f p) as M eqn:EM.
  assert (HM : exists M', M = "-"%char :: M').
  { subst M. unfold start_marker. eexists. reflexivity. }
  destruct HM as [M' ->].
  replace (start_marker f p ++ nlnl ++ inner ++ end_marker f p ++ y)
    with (("-"%char :: M') ++ y) in *
    by (rewrite EM, <- !app_assoc; reflexivity).
  change (("-"%char :: M') ++ y) with ("-"%char :: M' ++ y) in *.
  rewrite (finditer_match _ _ _ _ _ _ Hb).
  replace (length ("-"%char :: M') - 1) with (length M') by (simpl; lia).
  f_equal. apply finditer_skip.
Qed.

Lemma finditer_blocks (ord : SetOrder) (use_snippets : bool)
  (question : str) (docs : list Doc) :
  (forall d, In d docs ->
     block_text ord use_snippets question d <> []
     /\ well_formed_block (emitted_block ord use_snippets question d) = true) ->
  finditer (concat (map (block_text ord use_snippets question) docs))
  = map (emitted_block ord use_snippets question) docs.
Proof.
  unfold finditer. induction docs as [|d rest IH]; intros H.
  - reflexivity.
  - destruct (H d (or_introl eq_refl)) as [Hne Hwf].
    simpl map. simpl concat.
    rewrite (block_text_shape _ _ _ _ Hne). rewrite <- !app_assoc.
    assert (Hlead : forall z, finditer_from 0 (lead_of use_snippets ++ z)
                              = finditer_from 0 z).
    { intros z. destruct use_snippets; reflexivity. }
    rewrite Hlead. unfold emitted_block in Hwf.
    replace (start_marker (filename_of d) (page_of d) ++ nlnl
               ++ inner_of ord use_snippets question d
               ++ end_marker (filename_of d) (page_of d) ++ nlnl
               ++ concat (map (block_text ord use_snippets question) rest))
      with (start_marker (filename_of d) (page_of d) ++ nlnl
              ++ inner_of ord use_snippets question d
              ++ end_marker (filename_of d) (page_of d)
              ++ (nlnl ++ concat (map (block_text ord use_snippets question) rest)))
      by reflexivity.
    rewrite (finditer_emitted _ _ _ _ Hwf).
    f_equal. change (nlnl ++ ?z) with (nl :: nl :: z).
    rewrite !finditer_nl. apply IH.
    intros d' Hin. apply H. right. exact Hin.
Qed.

Lemma filter_truthy_map {A} (g : A -> str) (l : list A) :
  filter truthy (map g l) = map g (filter (fun d => truthy (g d)) l).
Proof.
  induction l as [|x l IH]; simpl; [reflexivity|].
  destruct (truthy (g x)); simpl; rewrite IH; reflexivity.
Qed.

Lemma in_firstn {A} (k : nat) (l : list A) (x : A) :
  In x (firstn k l) -> In x l.
Proof.
  revert l. induction k as [|k IH]; intros l; simpl; [contradiction|].
  destruct l as [|y l]; simpl; [contradiction|].
  intros [H | H]; [left; exact H | right; exact (IH _ H)].
Qed.

Lemma uint_digits (d : Decimal.uint) :
  forallb is_digit (L (NilEmpty.string_of_uint d)) = true.
Proof. induction d; simpl; try reflexivity; exact IHd. Qed.

Lemma nilzero_digits (d : Decimal.uint) :
  L (NilZero.string_of_uint d) <> []
  /\ forallb is_digit (L (NilZero.string_of_uint d)) = true.
Proof.
  destruct d; (split; [discriminate|]); try reflexivity;
    match goal with
    | |- forallb is_digit (L (NilZero.string_of_uint ?u)) = true =>
        exact (uint_digits u)
    end.
Qed.

(** A page number that is present and not negative is printed as a
    non-empty run of digits. *)
Lemma page_of_digits (doc : Doc) (n : Z) :
  page_number doc = Some n -> (0 <= n)%Z ->
  page_of doc <> [] /\ forallb is_digit (page_of doc) = true.
Proof.
  intros H Hn. unfold page_of. rewrite H. unfold str_of_Z.
  destruct n as [|q|q]; [| |lia].
  - split; [discriminate | reflexivity].
  - exact (nilzero_digits (Pos.to_uint q)).
Qed.

(** C4, as the code has it.  The parts of an assembled context are blocks
    of results of the search, each a START marker and an END marker with
    the same file name and page around the inner text.  When every block
    the results give is well formed (file name non-empty and without
    comma, page a non-empty run of digits, no END marker of the block
    inside its inner text), the scanner of the Verifier finds in the
    context exactly the emitted blocks, in order, with the same file name,
    page and inner text, also in the context [find_relevant_context]
    returns. *)
Theorem C4_scanner_reads_blocks (ord : SetOrder) (use_snippets : bool)
  (question : str) (docs : list Doc) :
  (forall d, In d (firstn 7 docs) ->
     block_text ord use_snippets question d <> [] ->
     well_formed_block (emitted_block ord use_snippets question d) = true) ->
  exists emitted : list Doc,
    context_parts_of ord use_snippets question docs
    = map (block_text ord use_snippets question) emitted
    /\ (forall d, In d emitted ->
          In d (firstn 7 docs)
          /\ block_text ord use_snippets question d
             = lead_of use_snippets
                 ++ start_marker (filename_of d) (page_of d) ++ nlnl
                 ++ inner_of ord use_snippets question d
                 ++ end_marker (filename_of d) (page_of d) ++ nlnl)
    /\ finditer (concat (context_parts_of ord use_snippets question docs))
       = map (emitted_block ord use_snippets question) emitted
    /\ (forall db collection,
          get_collection db = Ok collection ->
          find_text collection question = Ok docs ->
          exists context,
            find_relevant_context ord use_snippets question db = Ok context
            /\ finditer context
               = map (emitted_block ord use_snippets question) emitted).
Proof.
  intros Hwf.
  destruct (context_loop_prefix ord use_snippets question (firstn 7 docs)
              [] 0%Z eq_refl) as [k [Hk _]].
  simpl app in Hk. rewrite filter_truthy_map in Hk.
  set (emitted := filter (fun d => truthy (block_text ord use_snippets question d))
                    (firstn k (firstn 7 docs))) in *.
  assert (Hem : forall d, In d emitted ->
            In d (firstn 7 docs)
            /\ block_text ord use_snippets question d <> []).
  { intros d Hin. apply filter_In in Hin. destruct Hin as [Hin Ht].
    split; [exact (in_firstn _ _ _ Hin) | apply truthy_iff; exact Ht]. }
  assert (Hscan : finditer (concat (context_parts_of ord use_snippets question docs))
                  = map (emitted_block ord use_snippets question) emitted).
  { unfold context_parts_of. rewrite Hk. apply finditer_blocks.
    intros d Hin. destruct (Hem d Hin) as [H1 H2].
    split; [exact H2 | exact (Hwf d H1 H2)]. }
  exists emitted. split; [exact Hk|]. split; [|split; [exact Hscan|]].
  - intros d Hin. destruct (Hem d Hin) as [H1 H2].
    split; [exact H1 | apply block_text_shape; exact H2].
  - intros db collection Hc Hf. unfold find_relevant_context.
    rewrite Hc, Hf.
    destruct (concat (context_parts_of ord use_snippets question docs))
      as [|c ctx] eqn:E.
    + exists no_context. split; [reflexivity|].
      rewrite <- Hscan. reflexivity.
    + exists (c :: ctx). split; [reflexivity | exact Hscan].
Qed.

Lemma C4_witness :
  exists emitted : list Doc,
    context_parts_of insertion_order true ex_question [ex_doc]
    = map (block_text insertion_order true ex_question) emitted
    /\ finditer (concat (context_parts_of insertion_order true ex_question
                           [ex_doc]))
       = map (emitted_block insertion_order true ex_question) emitted.
Proof.
  destruct (C4_scanner_reads_blocks insertion_order true ex_question [ex_doc])
    as [emitted [H1 [_ [H2 _]]]].
  - intros d [<- | []] _. vm_compute. reflexivity.
  - exists emitted. split; [exact H1 | exact H2].
Defined.

(** A page without page number: the Assembler emits one block, with
    markers that read [Page: N/A], and the scanner finds none. *)
Lemma C4_counterexample :
  find_relevant_context insertion_order true ex_question ex_db_no_page
  = Ok ex_context_no_page
  /\ context_parts_of insertion_order true ex_question [ex_doc_no_page]
     = [block_text insertion_order true ex_question ex_doc_no_page]
  /\ block_text insertion_order true ex_question ex_doc_no_page <> []
  /\ finditer ex_context_no_page = [].
Proof.
  split; [vm_compute; reflexivity|].
  split; [vm_compute; reflexivity|].
  split; [vm_compute; discriminate | vm_compute; reflexivity].
Qed.

(** * Further properties of the code *)

(** ** The Verifier *)


Lemma evidence_search_none (text : str) :
  re_search evidence_at text = None <-> ~ evidence_occurs text.
Proof.
  rewrite re_search_none. unfold evidence_at, evidence_occurs. split.
  - intros H [pre [e [rest [-> He]]]].
    specialize (H pre (e ++ rest) eq_refl).
    assert (lit_ci (L "EVIDENCE:") (e ++ rest) = Some rest)
      by (apply lit_ci_spec; exists e; auto).
    congruence.
  - intros H pre suf ->.
    destruct (lit_ci (L "EVIDENCE:") suf) as [r|] eqn:E; [|reflexivity].
    exfalso. apply H. apply lit_ci_spec in E. destruct E as [a [-> Ha]].
    exists pre, a, r. auto.
Qed.

Lemma strip_blank (s : str) : forallb is_space s = true -> strip s = [].
Proof.
  intros H. unfold strip, lstrip.
  rewrite <- (app_nil_r s), drop_while_app by exact H. reflexivity.
Qed.

(** A Met response without an evidence section, or with a blank one, stays
    Met: the evidence is a fixed diagnostic, whatever the context. *)
Theorem X_met_without_evidence (text context : str) :
  status_occurs text ->
  (~ evidence_occurs text ->
   parse_gemini_response text context
   = (L "Met", L "STATUS was 'Met' but no EVIDENCE: section was found."))
  /\ (forall g1, re_search evidence_at text = Some g1 ->
        forallb is_space g1 = true ->
        parse_gemini_response text context
        = (L "Met", L "Evidence section was found but was empty.")).
Proof.
  intros Hs. apply status_search_iff in Hs. unfold parse_gemini_response.
  rewrite Hs. split.
  - intros He. apply evidence_search_none in He. rewrite He. reflexivity.
  - intros g1 He Hb. rewrite He. unfold evidence_text_of.
    rewrite (strip_blank _ Hb). reflexivity.
Qed.

Lemma X_met_without_evidence_witness :
  parse_gemini_response (L "Status:  met") ex_context
  = (L "Met", L "STATUS was 'Met' but no EVIDENCE: section was found.").
Proof.
  assert (Hs : status_occurs (L "Status:  met"))
    by (apply status_search_iff; vm_compute; reflexivity).
  apply (proj1 (X_met_without_evidence (L "Status:  met") ex_context Hs)).
  apply evidence_search_none. vm_compute. reflexivity.
Defined.





(** A match of [block_re] is a START marker, the inner text and an END
    marker with the same file name and page, up to the case of the
    letters. *)
Lemma block_at_delimited (s f p b : str) (n : nat) :
  block_at s = Some (f, p, b, n) ->
  exists st e post,
    s = st ++ b ++ e ++ post
    /\ lower st = lower (start_marker f p ++ nlnl)
    /\ lower e = lower (end_marker f p).
Proof.
  unfold block_at.
  destruct (lit_ci start_lit s) as [s1|] eqn:E1; [|discriminate].
  destruct (is_empty (take_while not_comma s1)) eqn:Ef; [discriminate|].
  destruct (lit_ci page_lit (drop_while not_comma s1)) as [s2|] eqn:E2;
    [|discriminate].
  destruct (is_empty (take_while is_digit s2)) eqn:Ep; [discriminate|].
  destruct (lit_ci (close_lit ++ [nl; nl]) (drop_while is_digit s2))
    as [s3|] eqn:E3; [|discriminate].
  destruct (find_ci _ s3 0) as [k|] eqn:E4; [|discriminate].
  intros H. inversion H. subst f p b n. clear H.
  apply lit_ci_spec in E1. destruct E1 as [a1 [-> H1]].
  apply lit_ci_spec in E2. destruct E2 as [a2 [H2 H2']].
  apply lit_ci_spec in E3. destruct E3 as [a3 [H3 H3']].
  destruct (find_ci_some _ _ _ _ E4) as [pre [rest [Hs3 [Hk Hl]]]].
  destruct (lit_ci (end_pattern (take_while not_comma s1)
                      (take_while is_digit s2)) rest) as [post|] eqn:E5;
    [|congruence].
  apply lit_ci_spec in E5. destruct E5 as [e [-> He]].
  exists (a1 ++ take_while not_comma s1 ++ a2 ++ take_while is_digit s2 ++ a3),
         e, post.
  split; [|split].
  - rewrite <- !app_assoc. f_equal.
    rewrite <- (take_drop_while not_comma s1) at 1. f_equal.
    rewrite H2. f_equal.
    rewrite <- (take_drop_while is_digit s2) at 1. f_equal.
    rewrite H3. f_equal. rewrite Hs3.
    simpl in Hk. subst k. rewrite firstn_app, firstn_all, Nat.sub_diag.
    simpl. rewrite app_nil_r. reflexivity.
  - unfold start_marker. rewrite !lower_app, H1, H2', H3'.
    unfold start_lit, page_lit, close_lit, nlnl.
    rewrite !lower_app. rewrite <- !app_assoc. reflexivity.
  - rewrite He. reflexivity.
Qed.

Lemma finditer_from_delimited (s : str) :
  forall skip f p b, In (f, p, b) (finditer_from skip s) ->
    exists pre st e post,
      s = pre ++ st ++ b ++ e ++ post
      /\ lower st = lower (start_marker f p ++ nlnl)
      /\ lower e = lower (end_marker f p).
Proof.
  induction s as [|c s IH]; intros skip f p b; simpl; [contradiction|].
  assert (Hrec : forall k, In (f, p, b) (finditer_from k s) ->
            exists pre st e post,
              c :: s = pre ++ st ++ b ++ e ++ post
              /\ lower st = lower (start_marker f p ++ nlnl)
              /\ lower e = lower (end_marker f p)).
  { intros k H. destruct (IH _ _ _ _ H) as [pre [st [e [post [-> [H1 H2]]]]]].
    exists (c :: pre), st, e, post. auto. }
  destruct skip as [|k]; [|apply Hrec].
  destruct (block_at (c :: s)) as [[[[f' p'] b'] n]|] eqn:E; [|apply Hrec].
  intros [H | H]; [|exact (Hrec _ H)].
  inversion H. subst.
  destruct (block_at_delimited _ _ _ _ _ E) as [st [e [post [Hs [H1 H2]]]]].
  exists [], st, e, post. auto.
Qed.

(** Whatever the context, every block the scanner returns is delimited in
    it by a START marker line and an END marker that carry the block's
    file name and page (up to the case of the letters); the file name is
    non-empty and free of commas, the page a non-empty run of digits. *)
Theorem X_scanned_block_is_delimited (context f p b : str) :
  In (f, p, b) (finditer context) ->
  (exists pre st e post,
     context = pre ++ st ++ b ++ e ++ post
     /\ lower st = lower (start_marker f p ++ nlnl)
     /\ lower e = lower (end_marker f p))
  /\ f <> [] /\ forallb not_comma f = true
  /\ p <> [] /\ forallb is_digit p = true.
Proof.
  intros H. split.
  - exact (finditer_from_delimited _ _ _ _ _ H).
  - destruct (finditer_fields _ _ _ _ H) as [H1 [H2 [H3 [H4 _]]]]. auto.
Qed.

Lemma X_scanned_block_is_delimited_witness :
  forallb is_digit (L "7") = true
  /\ exists pre st e post,
       ex_context
       = pre ++ st ++ (L "Members are told within 14 calendar days." ++ nlnl)
           ++ e ++ post
       /\ lower st = lower (start_marker (L "F.pdf") (L "7") ++ nlnl)
       /\ lower e = lower (end_marker (L "F.pdf") (L "7")).
Proof.
  destruct (X_scanned_block_is_delimited ex_context (L "F.pdf") (L "7")
              (L "Members are told within 14 calendar days." ++ nlnl))
    as [H [_ [_ [_ Hd]]]].
  - left. vm_compute. reflexivity.
  - split; [exact Hd | exact H].
Defined.

Lemma digit_not_dquote (p : str) :
  forallb is_digit p = true -> forallb not_dquote p = true.
Proof.
  induction p as [|c p IH]; simpl; [reflexivity|].
  rewrite andb_true_iff. intros [Hc Hp]. rewrite (IH Hp), andb_true_r.
  clear - Hc. revert Hc. all_chars c.
Qed.

Lemma lstrip_nonspace (c : ascii) (s : str) :
  is_space c = false -> lstrip (c :: s) = c :: s.
Proof. intros H. unfold lstrip. apply drop_while_stop. exact H. Qed.

Lemma strip_digits (p : str) : forallb is_digit p = true -> strip p = p.
Proof.
  intros H. destruct p as [|c p]; [reflexivity|].
  assert (Hc : is_space c = false).
  { simpl in H. apply andb_true_iff in H. apply digit_not_space, H. }
  unfold strip. rewrite (lstrip_nonspace _ _ Hc).
  destruct (rev (c :: p)) as [|d r] eqn:E.
  - apply (f_equal (@length ascii)) in E. rewrite length_rev in E. discriminate.
  - unfold rstrip. rewrite E.
    assert (Hd : is_space d = false).
    { apply digit_not_space. rewrite forallb_forall in H. apply H.
      apply in_rev. rewrite E. left. reflexivity. }
    rewrite drop_while_stop by exact Hd. rewrite <- E. apply rev_involutive.
Qed.

(** The citation regex reads a formatted evidence string back. *)
Lemma cite_at_format (f p q : str) :
  f <> [] -> strip f = f -> forallb not_comma f = true ->
  p <> [] -> forallb is_digit p = true ->
  cite_at (format_evidence f p q) = Some (f, p).
Proof.
  intros Hf Hsf Hfc Hp Hpd. unfold format_evidence, cite_at.
  change (lit_ci (L "(") (L "(From Filename: " ++ f ++ L ", Page: " ++ p
                           ++ L ") " ++ [dquote] ++ q ++ [dquote]))
    with (Some (L "From Filename: " ++ f ++ L ", Page: " ++ p
                  ++ L ") " ++ [dquote] ++ q ++ [dquote])).
  cbv beta iota.
  change (lit_ci (L "From")
            (drop_while is_space
               (L "From Filename: " ++ f ++ L ", Page: " ++ p
                  ++ L ") " ++ [dquote] ++ q ++ [dquote])))
    with (Some (L " Filename: " ++ f ++ L ", Page: " ++ p
                  ++ L ") " ++ [dquote] ++ q ++ [dquote])).
  cbv beta iota.
  change (take_while is_space
            (L " Filename: " ++ f ++ L ", Page: " ++ p
               ++ L ") " ++ [dquote] ++ q ++ [dquote]))
    with (L " ").
  change (is_empty (L " ")) with false. cbv beta iota.
  change (lit_ci (L "Filename:")
            (drop_while is_space
               (L " Filename: " ++ f ++ L ", Page: " ++ p
                  ++ L ") " ++ [dquote] ++ q ++ [dquote])))
    with (Some ((" "%char :: f) ++ ","%char :: L " Page: " ++ p
                  ++ L ") " ++ [dquote] ++ q ++ [dquote])).
  cbv beta iota.
  assert (Hseg : forallb not_comma (" "%char :: f) = true)
    by (simpl; rewrite Hfc; reflexivity).
  rewrite (take_while_app_stop not_comma _ ","%char _ Hseg eq_refl).
  rewrite (drop_while_app_stop not_comma _ ","%char _ Hseg eq_refl).
  change (lit_ci (L "Page:")
            (drop_while is_space
               (L " Page: " ++ p ++ L ") " ++ [dquote] ++ q ++ [dquote])))
    with (Some (" "%char :: p ++ ")"%char :: L " " ++ [dquote] ++ q
                  ++ [dquote])).
  cbv beta iota.
  destruct p as [|cp p]; [congruence|].
  assert (Hcp : is_space cp = false).
  { simpl in Hpd. apply andb_true_iff in Hpd. apply digit_not_space, Hpd. }
  change (drop_while is_space
            (" "%char :: (cp :: p) ++ ")"%char :: L " " ++ [dquote] ++ q
               ++ [dquote]))
    with (drop_while is_space
            (cp :: p ++ ")"%char :: L " " ++ [dquote] ++ q ++ [dquote])).
  rewrite (drop_while_stop is_space cp _ Hcp).
  change (cp :: p ++ ")"%char :: L " " ++ [dquote] ++ q ++ [dquote])
    with ((cp :: p) ++ ")"%char :: L " " ++ [dquote] ++ q ++ [dquote]).
  rewrite (take_while_app_stop is_digit _ ")"%char _ Hpd eq_refl).
  rewrite (drop_while_app_stop is_digit _ ")"%char _ Hpd eq_refl).
  change (is_empty (cp :: p)) with false. cbv beta iota.
  change (lit_ci (L ")")
            (drop_while is_space
               (")"%char :: L " " ++ [dquote] ++ q ++ [dquote])))
    with (Some (L " " ++ [dquote] ++ q ++ [dquote])).
  cbv beta iota.
  change (is_empty (" "%char :: f)) with false. cbv beta iota.
  change (strip (" "%char :: f)) with (strip f). rewrite Hsf.
  destruct f as [|cf f]; [congruence|]. reflexivity.
Qed.

Lemma quote_text_format (f p q : str) :
  forallb not_dquote f = true -> forallb is_digit p = true ->
  forallb not_dquote q = true ->
  quote_text_of (format_evidence f p q) = strip q.
Proof.
  intros Hf Hp Hq. unfold format_evidence, quote_text_of, quote_match.
  rewrite (app_assoc (L "(From Filename: ") f).
  rewrite (app_assoc (L "(From Filename: " ++ f) (L ", Page: ")).
  rewrite (app_assoc ((L "(From Filename: " ++ f) ++ L ", Page: ") p).
  rewrite (app_assoc (((L "(From Filename: " ++ f) ++ L ", Page: ") ++ p)
             (L ") ")).
  rewrite drop_while_app.
  2:{ repeat apply forallb_L_app; try reflexivity; try assumption.
      apply digit_not_dquote. exact Hp. }
  change (drop_while not_dquote ([dquote] ++ q ++ [dquote]))
    with (dquote :: q ++ [dquote]).
  cbv beta iota.
  rewrite drop_while_app by exact Hq.
  rewrite take_while_app by exact Hq.
  simpl. rewrite app_nil_r. reflexivity.
Qed.

(** The evidence the Verifier formats is in the format it reads: given
    back as the evidence of a Met response, with a context in which no
    scanned block holds the quote, a formatted citation-and-quote is
    returned unchanged. *)
Theorem X_formatted_evidence_round_trip (f p q context : str) :
  f <> [] -> strip f = f ->
  forallb not_comma f = true -> forallb not_dquote f = true ->
  p <> [] -> forallb is_digit p = true ->
  q <> [] -> strip q = q -> forallb not_dquote q = true ->
  (forall m, In m (finditer context) ->
             contains (norm (snd m)) (norm q) = false) ->
  parse_gemini_response (met_response (format_evidence f p q)) context
  = (L "Met", format_evidence f p q).
Proof.
  intros Hf Hsf Hfc Hfq Hp Hpd Hq Hsq Hqq Hall.
  assert (Hev : evidence_text_of (L " " ++ format_evidence f p q)
                = format_evidence f p q).
  { unfold evidence_text_of, strip.
    change (lstrip (L " " ++ format_evidence f p q))
      with (format_evidence f p q).
    unfold format_evidence. rewrite !app_assoc.
    apply rstrip_keeps_last. reflexivity. }
  assert (Hqt : quote_text_of (format_evidence f p q) = q)
    by (rewrite quote_text_format by assumption; exact Hsq).
  rewrite (parse_no_block (met_response (format_evidence f p q)) context
             (L " " ++ format_evidence f p q)).
  - rewrite Hev. unfold claimed_evidence, found_of.
    replace (re_search cite_at (format_evidence f p q)) with (Some (f, p)).
    + rewrite Hsf, (strip_digits p Hpd), Hqt. simpl fst. simpl snd.
      apply truthy_iff in Hf. apply truthy_iff in Hp.
      unfold opt_truthy. rewrite Hf, Hp. reflexivity.
    + symmetry. pose proof (cite_at_format f p q Hf Hsf Hfc Hp Hpd) as Hc.
      unfold format_evidence in *.
      change (L "(From Filename: " ++ f ++ L ", Page: " ++ p ++ L ") "
                ++ [dquote] ++ q ++ [dquote])
        with ("("%char :: L "From Filename: " ++ f ++ L ", Page: " ++ p
                ++ L ") " ++ [dquote] ++ q ++ [dquote]) in *.
      cbn [re_search]. rewrite Hc. reflexivity.
  - apply status_search_iff. reflexivity.
  - reflexivity.
  - rewrite Hev, Hqt. exact Hq.
  - rewrite Hev, Hqt. exact Hall.
Qed.

Lemma X_formatted_evidence_round_trip_witness :
  parse_gemini_response
    (met_response (format_evidence (L "G.pdf") (L "1") ex_absent_quote))
    ex_context
  = (L "Met", format_evidence (L "G.pdf") (L "1") ex_absent_quote).
Proof.
  apply X_formatted_evidence_round_trip;
    try (vm_compute; reflexivity); try (vm_compute; discriminate).
  intros m [<- | []]. vm_compute. reflexivity.
Defined.

(** ** The snippet selector *)

Lemma findall_tok_tokens (s : str) :
  forall cur, forallb is_tok_char cur = true ->
    forall t, In t (findall_tok cur s) ->
      t <> [] /\ forallb is_tok_char t = true.
Proof.
  assert (Hrev : forall cur, cur <> [] -> forallb is_tok_char cur = true ->
            rev cur <> [] /\ forallb is_tok_char (rev cur) = true).
  { intros cur Hne Hc. split.
    - intros E. apply Hne. rewrite <- (rev_involutive cur), E. reflexivity.
    - rewrite forallb_forall in *. intros x Hx. apply Hc, in_rev, Hx. }
  induction s as [|c s IH]; intros cur Hcur t; simpl.
  - destruct cur as [|x cur]; [contradiction|].
    intros [<- | []]. apply Hrev; [discriminate | exact Hcur].
  - destruct (is_tok_char c) eqn:Ec.
    + apply IH. simpl. rewrite Ec, Hcur. reflexivity.
    + destruct cur as [|x cur]; [apply IH; reflexivity|].
      intros [<- | H]; [apply Hrev; [discriminate | exact Hcur]|].
      exact (IH [] eq_refl t H).
Qed.

(** Every token is a non-empty run of lower-case letters and digits, and
    the tokens of a text do not depend on the case of its letters. *)
Theorem X_tokens_are_lowercase_alnum (text : str) :
  (forall t, In t (_tokenize text) ->
     t <> [] /\ forallb is_tok_char t = true)
  /\ _tokenize (lower text) = _tokenize text.
Proof.
  split.
  - intros t H. exact (findall_tok_tokens _ [] eq_refl t H).
  - unfold _tokenize, lower. rewrite map_map. f_equal.
    apply map_ext. intros c. apply lower_char_idem.
Qed.

Lemma substr_refl (s : str) : substr s s.
Proof. exists [], []. rewrite app_nil_r. reflexivity. Qed.

Lemma substr_firstn (n : nat) (s : str) : substr (firstn n s) s.
Proof.
  exists [], (skipn n s). simpl. symmetry. apply firstn_skipn.
Qed.

Lemma substr_skipn (n : nat) (s : str) : substr (skipn n s) s.
Proof.
  exists (firstn n s), []. rewrite app_nil_r. symmetry. apply firstn_skipn.
Qed.

Lemma substr_slice (s : str) (a b : Z) : substr (slice s a b) s.
Proof.
  unfold slice. eapply substr_trans; [apply substr_firstn | apply substr_skipn].
Qed.

Lemma substr_slice_to (s : str) (n : Z) : substr (slice_to s n) s.
Proof. unfold slice_to. destruct (0 <=? n)%Z; apply substr_firstn. Qed.

Lemma in_slice_to {A} (l : list A) (n : Z) (x : A) :
  In x (slice_to l n) -> In x l.
Proof. unfold slice_to. destruct (0 <=? n)%Z; apply in_firstn. Qed.

Lemma windows_loop_excerpts (content : str) (per_doc : Z) (phrases : list str) :
  forall windows,
    Forall (fun w => substr w content) windows ->
    Forall (fun w => substr w content)
           (windows_loop content per_doc phrases windows).
Proof.
  induction phrases as [|ph rest IH]; intros windows H; simpl; [exact H|].
  destruct (is_empty ph); [apply IH; exact H|].
  destruct (negb (find (lower content) ph =? -1)%Z); [|apply IH; exact H].
  assert (H' : Forall (fun w => substr w content)
                 (windows ++ [slice content
                    (Z.max 0 (find (lower content) ph - 400))
                    (Z.min (zlen content)
                       (find (lower content) ph + zlen ph + 500))])).
  { apply Forall_app. split; [exact H|]. constructor; [|constructor].
    apply substr_slice. }
  match goal with |- context [if ?c then _ else _] => destruct c end.
  - exact H'.
  - apply IH. exact H'.
Qed.

Lemma substr_app_l (a p s : str) : substr a s -> substr a (p ++ s).
Proof. intros [x [y ->]]. exists (p ++ x), y. rewrite <- app_assoc. reflexivity. Qed.

Lemma split_paras_excerpts (s : str) :
  forall skip cur, (skip = 0 \/ cur = []) ->
    forall p, In p (split_paras skip cur s) -> substr p (rev cur ++ s).
Proof.
  induction s as [|c r IH]; intros skip cur Hinv p; simpl.
  - intros [<- | []]. rewrite app_nil_r. apply substr_refl.
  - destruct skip as [|k].
    + assert (Hkeep : In p (split_paras 0 (c :: cur) r) ->
                      substr p (rev cur ++ c :: r)).
      { intros H. specialize (IH 0 (c :: cur) (or_introl eq_refl) p H).
        simpl in IH. rewrite <- app_assoc in IH. exact IH. }
      destruct (ascii_eqb c nl); [|exact Hkeep].
      destruct (last_nl (take_while is_space r) 0 None) as [k|]; [|exact Hkeep].
      intros [<- | H].
      * exists [], (c :: r). reflexivity.
      * specialize (IH (S k) [] (or_intror eq_refl) p H). simpl in IH.
        apply substr_app_l. apply substr_cons. exact IH.
    + destruct Hinv as [Hinv | ->]; [discriminate|].
      intros H. specialize (IH k [] (or_intror eq_refl) p H). simpl in *.
      apply substr_cons. exact IH.
Qed.

Lemma insert_desc_in (key : str -> nat) (x y : str) (l : list str) :
  In y (insert_desc key x l) -> y = x \/ In y l.
Proof.
  induction l as [|z zs IH]; simpl.
  - intros [<- | []]. left. reflexivity.
  - destruct (key x <? key z).
    + intros [<- | H]; [right; left; reflexivity|].
      destruct (IH H) as [-> | H']; [left; reflexivity | right; right; exact H'].
    + intros [<- | H]; [left; reflexivity | right; exact H].
Qed.

Lemma sorted_desc_in (key : str -> nat) (y : str) (l : list str) :
  In y (sorted_desc key l) -> In y l.
Proof.
  induction l as [|x xs IH]; simpl; [tauto|].
  intros H. destruct (insert_desc_in _ _ _ _ H) as [-> | H'];
    [left; reflexivity | right; exact (IH H')].
Qed.

(** Every snippet is an excerpt of the page: a contiguous part of its
    content, character for character, in both branches and whatever the
    parameters and the iteration order of the phrases. *)
Theorem X_snippets_are_excerpts (ord : SetOrder) (content question : str)
  (per_doc max_chars_per_snippet : Z) (snippet : str) :
  In snippet
     (_pick_snippets ord content question per_doc max_chars_per_snippet) ->
  substr snippet content.
Proof.
  unfold _pick_snippets. destruct (is_empty content); [contradiction|].
  set (phrases := ord _).
  pose proof (windows_loop_excerpts content per_doc phrases [] (Forall_nil _))
    as Hw.
  destruct (windows_loop content per_doc phrases []) as [|w ws].
  - destruct (paras_of content) as [|p ps] eqn:Ep; [contradiction|].
    intros H. apply in_map_iff in H. destruct H as [x [<- Hx]].
    apply in_slice_to, sorted_desc_in in Hx.
    rewrite <- Ep in Hx. unfold paras_of in Hx.
    apply filter_In in Hx. destruct Hx as [Hx _].
    apply in_map_iff in Hx. destruct Hx as [piece [<- Hpiece]].
    pose proof (split_paras_excerpts content 0 [] (or_introl eq_refl) _ Hpiece)
      as Hs. simpl in Hs.
    eapply substr_trans; [apply substr_slice_to|].
    eapply substr_trans; [apply substr_strip | exact Hs].
  - intros H. apply in_map_iff in H. destruct H as [x [<- Hx]].
    rewrite Forall_forall in Hw.
    eapply substr_trans; [apply substr_slice_to | exact (Hw x Hx)].
Qed.

Lemma X_snippets_are_excerpts_witness :
  substr ex_page ex_page
  /\ In ex_page (_pick_snippets insertion_order ex_page ex_question 1 800).
Proof.
  assert (H : In ex_page
                (_pick_snippets insertion_order ex_page ex_question 1 800))
    by (vm_compute; left; reflexivity).
  split; [|exact H].
  exact (X_snippets_are_excerpts insertion_order ex_page ex_question 1 800
           ex_page H).
Defined.

(** ** The context assembler *)

Lemma length_filter_le {A} (g : A -> bool) (l : list A) :
  length (filter g l) <= length l.
Proof.
  induction l as [|x l IH]; simpl; [lia|]. destruct (g x); simpl; lia.
Qed.

(** The parts of a context are at most seven, and they are the first ones,
    in relevance order, of the non-empty blocks of the top seven results;
    they are none only when no such block exists: the first non-empty
    block is accepted whatever its length. *)
Theorem X_context_is_prefix_of_blocks (ord : SetOrder) (use_snippets : bool)
  (question : str) (docs : list Doc) :
  let parts := context_parts_of ord use_snippets question docs in
  let blocks :=
    filter truthy (map (block_text ord use_snippets question)
                     (firstn 7 docs)) in
  length parts <= 7
  /\ (exists rest, blocks = parts ++ rest)
  /\ (parts = [] -> blocks = []).
Proof.
  intros parts blocks. subst parts blocks. unfold context_parts_of.
  destruct (context_loop_prefix ord use_snippets question (firstn 7 docs)
              [] 0%Z eq_refl) as [k [Hk Hr]].
  cbn [app] in Hk.
  assert (Hsplit : filter truthy (map (block_text ord use_snippets question)
                                    (firstn 7 docs))
                   = context_loop ord use_snippets question (firstn 7 docs) [] 0
                     ++ filter truthy (map (block_text ord use_snippets question)
                                         (skipn k (firstn 7 docs)))).
  { rewrite Hk, <- filter_app, <- map_app, firstn_skipn. reflexivity. }
  split; [|split].
  - rewrite Hk.
    pose proof (length_filter_le truthy
                  (map (block_text ord use_snippets question)
                     (firstn k (firstn 7 docs)))) as H1.
    rewrite length_map in H1.
    pose proof (length_firstn k (firstn 7 docs)) as H2.
    pose proof (firstn_le_length 7 docs) as H3. lia.
  - eexists. exact Hsplit.
  - intros Hnil. rewrite Hsplit, Hnil. simpl.
    destruct Hr as [-> | [d [_ [_ [Hne _]]]]].
    + rewrite skipn_all. reflexivity.
    + contradiction.
Qed.

Lemma block_text_first (ord : SetOrder) (use_snippets : bool)
  (question : str) (doc : Doc) :
  block_text ord use_snippets question doc <> [] ->
  exists c r, block_text ord use_snippets question doc = c :: r
              /\ (c = "-"%char \/ c = nl).
Proof.
  intros H. rewrite (block_text_shape _ _ _ _ H).
  destruct use_snippets; eexists; eexists; (split; [reflexivity|]).
  - left. reflexivity.
  - right. reflexivity.
Qed.

(** When the search succeeds, the result is the sentinel for "no relevant
    documents" exactly when no block was accepted; otherwise it is the
    concatenation of the accepted blocks, which is not empty and is
    neither of the two sentinel strings. *)
Theorem X_context_never_a_sentinel (ord : SetOrder) (use_snippets : bool)
  (question : str) (db : Database) (collection : Collection)
  (docs : list Doc) :
  get_collection db = Ok collection ->
  find_text collection question = Ok docs ->
  let parts := context_parts_of ord use_snippets question docs in
  (parts = [] /\
   find_relevant_context ord use_snippets question db = Ok no_context)
  \/ (parts <> []
      /\ find_relevant_context ord use_snippets question db
         = Ok (concat parts)
      /\ concat parts <> []
      /\ concat parts <> no_context
      /\ concat parts <> search_error).
Proof.
  intros Hc Hf parts. unfold find_relevant_context. rewrite Hc, Hf.
  fold parts.
  destruct parts as [|b rest] eqn:Ep; [left; split; reflexivity|].
  right.
  assert (Hb : exists d, b = block_text ord use_snippets question d /\ b <> []).
  { destruct (context_loop_prefix ord use_snippets question (firstn 7 docs)
                [] 0%Z eq_refl) as [k [Hk _]].
    cbn [app] in Hk. fold (context_parts_of ord use_snippets question docs) in Hk.
    fold parts in Hk. rewrite Ep in Hk.
    assert (Hin : In b (filter truthy
                          (map (block_text ord use_snippets question)
                             (firstn k (firstn 7 docs)))))
      by (rewrite <- Hk; left; reflexivity).
    apply filter_In in Hin. destruct Hin as [Hin Ht].
    apply in_map_iff in Hin. destruct Hin as [d [Hd _]].
    exists d. split; [symmetry; exact Hd | apply truthy_iff; exact Ht]. }
  destruct Hb as [d [Hd Hne]].
  rewrite Hd in Hne.
  destruct (block_text_first _ _ _ _ Hne) as [c [r [Hcr Hc']]].
  rewrite <- Hd in Hcr. subst b.
  split; [discriminate|]. simpl concat. rewrite Hcr. simpl app.
  split; [reflexivity|]. split; [discriminate|].
  split; intros E; inversion E; destruct Hc' as [-> | ->]; discriminate.
Qed.

Lemma X_context_never_a_sentinel_witness :
  concat (context_parts_of insertion_order true ex_question [ex_doc])
  <> no_context.
Proof.
  assert (Hne : context_parts_of insertion_order true ex_question [ex_doc]
                <> [])
    by (vm_compute; discriminate).
  destruct (X_context_never_a_sentinel insertion_order true ex_question ex_db
              (MkCollection (fun _ => Ok [ex_doc])) [ex_doc] eq_refl eq_refl)
    as [[H _] | [_ [_ [_ [Hn _]]]]].
  - exact (False_ind _ (Hne H)).
  - exact Hn.
Defined.

(** ** The per-question pipeline and the route *)

Lemma parse_status_cases (text context : str) :
  fst (parse_gemini_response text context) = L "Met"
  \/ fst (parse_gemini_response text context) = L "Not Met".
Proof.
  unfold parse_gemini_response.
  destruct (re_search status_at text) as [[]|]; [|right; reflexivity].
  destruct (re_search evidence_at text) as [g1|];
    [destruct (truthy (evidence_text_of g1));
     [destruct (truthy _ && opt_truthy _ && opt_truthy _);
      [|destruct (truthy _ && opt_truthy _ && opt_truthy _)]|]|];
    left; reflexivity.
Qed.

Lemma task_verdict (ord : SetOrder) (use_snippets : bool)
  (gemini_model : option Model) (db : Database) (question : str) :
  let v := analyze_single_question_task ord use_snippets gemini_model db
             question in
  v_question v = question
  /\ (v_status v = L "Met" \/ v_status v = L "Not Met"
      \/ v_status v = L "Error").
Proof.
  unfold analyze_single_question_task.
  destruct (analyze_question_with_gemini ord use_snippets gemini_model db
              question) as [[text ctx]|e].
  - pose proof (parse_status_cases text ctx) as H.
    destruct (parse_gemini_response text ctx) as [status evidence].
    simpl in *. split; [reflexivity | tauto].
  - simpl. split; [reflexivity | right; right; reflexivity].
Qed.

(** When the model handle is missing, when the model answers with no
    text, and when the model call raises with a message that does not
    itself hold the status pattern, the verdict of the question is Not Met
    with evidence N/A: the failure text is parsed like a response. *)
Theorem X_model_failure_is_not_met (ord : SetOrder) (use_snippets : bool)
  (db : Database) (collection : Collection) (question : str) :
  analyze_single_question_task ord use_snippets None db question
  = MkVerdict question (L "Not Met") (L "N/A")
  /\ (get_collection db = Ok collection ->
      forall generate : Model,
        (forall prompt, generate prompt = Ok []) ->
        analyze_single_question_task ord use_snippets (Some generate) db
          question
        = MkVerdict question (L "Not Met") (L "N/A"))
  /\ (get_collection db = Ok collection ->
      forall (generate : Model) (e : str),
        (forall prompt, generate prompt = Raise e) ->
        ~ status_occurs (L "Error: Could not analyze question. " ++ e) ->
        analyze_single_question_task ord use_snippets (Some generate) db
          question
        = MkVerdict question (L "Not Met") (L "N/A")).
Proof.
  split; [reflexivity|]. split.
  - intros Hc generate Hg.
    unfold analyze_single_question_task, analyze_question_with_gemini,
      find_relevant_context.
    rewrite Hc. destruct (find_text collection question) as [docs|e'].
    + destruct (is_empty _); rewrite Hg; reflexivity.
    + rewrite Hg. reflexivity.
  - intros Hc generate e Hg Hs.
    assert (Hp : forall ctx,
              parse_gemini_response
                (L "Error: Could not analyze question. " ++ e) ctx
              = (L "Not Met", L "N/A")).
    { intros ctx. unfold parse_gemini_response.
      destruct (re_search status_at _) as [[]|] eqn:E; [|reflexivity].
      exfalso. apply Hs. apply status_search_iff. exact E. }
    unfold analyze_single_question_task, analyze_question_with_gemini,
      find_relevant_context.
    rewrite Hc. destruct (find_text collection question) as [docs|e'].
    + destruct (is_empty _); rewrite Hg, Hp; reflexivity.
    + rewrite Hg, Hp. reflexivity.
Qed.

Lemma X_model_failure_is_not_met_witness :
  analyze_single_question_task insertion_order true (Some ex_failing_model)
    ex_db ex_question
  = MkVerdict ex_question (L "Not Met") (L "N/A").
Proof.
  destruct (X_model_failure_is_not_met insertion_order true ex_db
              (MkCollection (fun _ => Ok [ex_doc])) ex_question)
    as [_ [_ H]].
  apply (H eq_refl ex_failing_model (L "quota exceeded")).
  - reflexivity.
  - intros Hs. apply status_search_iff in Hs. revert Hs.
    vm_compute. discriminate.
Defined.

(** A response with results is given only when the file part, its name,
    the store and the model are there and the Segmenter finds questions;
    it then holds one verdict per question, in order, at least one; every
    verdict carries a question that ends with a question mark and has more
    than four words, and a status among Met, Not Met and Error.  Every
    other response is an error with code 400 or 500. *)
Theorem X_upload_results (ord : SetOrder) (use_snippets : bool)
  (file_part : option Route.Upload) (mongo_client : option Database)
  (gemini_model : option Model) :
  match Route.upload_audit_pdf ord use_snippets file_part mongo_client
          gemini_model with
  | Route.Json_results results =>
      exists file db generate,
        file_part = Some file /\ Route.up_filename file <> []
        /\ mongo_client = Some db /\ gemini_model = Some generate
        /\ results <> []
        /\ map v_question results
           = extract_questions_from_pdf (Route.up_stream file)
        /\ Forall (fun v =>
                     endswith qmark (v_question v) = true
                     /\ 4 < length (split_ws (v_question v))
                     /\ (v_status v = L "Met" \/ v_status v = L "Not Met"
                         \/ v_status v = L "Error")) results
  | Route.Json_error _ code => code = 400%Z \/ code = 500%Z
  end.
Proof.
  unfold Route.upload_audit_pdf.
  destruct file_part as [file|]; [|left; reflexivity].
  destruct (is_empty (Route.up_filename file)) eqn:Ef; [left; reflexivity|].
  destruct mongo_client as [db|]; [|right; reflexivity].
  destruct gemini_model as [generate|]; [|right; reflexivity].
  destruct (extract_questions_from_pdf (Route.up_stream file))
    as [|q qs] eqn:Eq; [left; reflexivity|].
  exists file, db, generate.
  assert (Hq : Forall is_question (q :: qs)).
  { rewrite <- Eq. unfold extract_questions_from_pdf.
    destruct (Route.up_stream file) as [ps|]; [|constructor].
    destruct (truthy (full_text_of ps)); [|constructor].
    unfold questions_of_text, seg_loop.
    apply seg_loop_questions. constructor. }
  split; [reflexivity|]. split; [apply truthy_iff; unfold truthy; rewrite Ef; reflexivity|].
  split; [reflexivity|]. split; [reflexivity|].
  split; [discriminate|]. split.
  - rewrite Eq. unfold analyze_questions. rewrite map_map.
    transitivity (map (fun x : str => x) (q :: qs)); [|apply map_id].
    apply map_ext.
    intros a. apply (task_verdict ord use_snippets (Some generate) db a).
  - unfold analyze_questions. apply Forall_map.
    rewrite Forall_forall in *. intros a Ha.
    destruct (task_verdict ord use_snippets (Some generate) db a) as [H1 H2].
    rewrite H1. destruct (Hq a Ha) as [Hq1 [Hq2 _]]. auto.
Qed.

(** ** The Segmenter *)

Lemma rstrip_idem (s : str) : rstrip (rstrip s) = rstrip s.
Proof.
  unfold rstrip. rewrite rev_involutive.
  destruct (drop_while is_space (rev s)) as [|d r] eqn:E; [reflexivity|].
  rewrite (drop_while_stop _ _ _ (drop_while_head _ _ _ _ E)). reflexivity.
Qed.

Lemma lstrip_rstrip_lstrip (t : str) :
  lstrip (rstrip (lstrip t)) = rstrip (lstrip t).
Proof.
  unfold lstrip at 2 3.
  destruct (drop_while is_space t) as [|c w] eqn:E; [reflexivity|].
  pose proof (drop_while_head _ _ _ _ E) as Hc.
  unfold rstrip. simpl rev.
  destruct (lstrip_keeps_last (rev w) c Hc) as [y Hy].
  unfold lstrip in Hy. rewrite Hy, rev_app_distr. simpl.
  apply lstrip_nonspace. exact Hc.
Qed.

Lemma strip_idem (t : str) : strip (strip t) = strip t.
Proof.
  unfold strip. rewrite lstrip_rstrip_lstrip. apply rstrip_idem.
Qed.

Lemma collapse_spaces (s : str) :
  forall b c, In c (collapse_from b s) -> is_space c = true -> c = " "%char.
Proof.
  induction s as [|x s IH]; intros b c; simpl; [contradiction|].
  destruct (is_space x) eqn:Ex.
  - destruct b.
    + apply IH.
    + intros [<- | H]; [reflexivity | exact (IH _ _ H)].
  - intros [<- | H] Hc; [congruence | exact (IH _ _ H Hc)].
Qed.

Lemma substr_in (a s : str) (c : ascii) : substr a s -> In c a -> In c s.
Proof.
  intros [p [q ->]] H. apply in_or_app. right. apply in_or_app. left. exact H.
Qed.

Lemma seg_step_count (st : SegState) (line : str) :
  length (questions (seg_step st line))
  <= length (questions st) + (if endswith qmark line then 1 else 0).
Proof.
  unfold seg_step. destruct (endswith qmark line).
  - destruct (4 <? _); simpl; [rewrite length_app; simpl; lia | lia].
  - destruct (enum_match line && _); simpl; lia.
Qed.

Lemma seg_loop_count (lines : list str) :
  forall st,
    length (questions (fold_left seg_step lines st))
    <= length (questions st) + length (filter (endswith qmark) lines).
Proof.
  induction lines as [|l rest IH]; intros st; simpl; [lia|].
  specialize (IH (seg_step st l)). pose proof (seg_step_count st l) as H.
  destruct (endswith qmark l); simpl; lia.
Qed.

(** Every question is one line of normalised text: it has no leading or
    trailing whitespace and its only whitespace characters are spaces (no
    newline, no tab).  There are at most as many questions as cleaned
    lines that end with a question mark. *)
Theorem X_questions_are_normalised :
  (forall (pages : option (list (option str))) (q : str),
     In q (extract_questions_from_pdf pages) ->
     strip q = q
     /\ forall c, In c q -> is_space c = true -> c = " "%char)
  /\ (forall full_text : str,
        length (questions_of_text full_text)
        <= length (filter (endswith qmark)
                     (cleaned_lines_of
                        (split_on nl
                           (sub_soft_break 0 (sub_hyphen 0 full_text)))))).
Proof.
  split.
  - intros pages q H. unfold extract_questions_from_pdf in H.
    destruct pages as [ps|]; [|contradiction].
    destruct (truthy (full_text_of ps)); [|contradiction].
    unfold questions_of_text, seg_loop in H.
    pose proof (seg_loop_questions
                  (cleaned_lines_of
                     (split_on nl (sub_soft_break 0 (sub_hyphen 0 (full_text_of ps)))))
                  (MkSeg [] []) (Forall_nil _)) as HF.
    rewrite Forall_forall in HF. destruct (HF q H) as [_ [_ [lines [-> _]]]].
    unfold q_text_of. split; [apply strip_idem|].
    intros c Hc Hs.
    apply (collapse_spaces (strip (join space lines)) false c); [|exact Hs].
    exact (substr_in _ _ _ (substr_strip _) Hc).
  - intros full_text. unfold questions_of_text, seg_loop.
    apply (seg_loop_count _ (MkSeg [] [])).
Qed.

(** ** Store population *)

Lemma forallb_rev (g : ascii -> bool) (s : str) :
  forallb g s = true -> forallb g (rev s) = true.
Proof.
  rewrite !forallb_forall. intros H x Hx. apply H, in_rev, Hx.
Qed.

Lemma basename_no_slash (path : str) :
  forallb Populate.not_slash (Populate.basename path) = true.
Proof. unfold Populate.basename. apply forallb_rev, take_while_all. Qed.

Lemma pages_docs_fields (base : str) (pages : list (result (option str))) :
  forall n d, In d (Populate.pages_docs base n pages) ->
    filename d = Some base
    /\ exists m text,
         page_number d = Some m /\ (n <= m < n + Z.of_nat (length pages))%Z
         /\ content d = Some (strip text) /\ text <> [].
Proof.
  induction pages as [|pg rest IH]; intros n d; simpl; [contradiction|].
  assert (Hrec : In d (Populate.pages_docs base (n + 1) rest) ->
            filename d = Some base
            /\ exists m text,
                 page_number d = Some m
                 /\ (n <= m < n + Z.pos (Pos.of_succ_nat (length rest)))%Z
                 /\ content d = Some (strip text) /\ text <> []).
  { intros H. destruct (IH _ _ H) as [H1 [m [text [H2 [H3 H4]]]]].
    split; [exact H1|]. exists m, text. split; [exact H2|].
    split; [lia | exact H4]. }
  destruct pg as [[text|]|e]; [| exact Hrec | contradiction].
  destruct (truthy text) eqn:Et; [|exact Hrec].
  intros [<- | H]; [|exact (Hrec H)].
  simpl. split; [reflexivity|]. exists n, text.
  repeat split; try lia. apply truthy_iff. exact Et.
Qed.

(** Every document prepared for insertion has the three keys: a file name
    that is the base name of a PDF path (no slash in it), a page number
    that is at least 1, and a content that is stripped text of a page with
    text.  Its page is therefore printed as a non-empty run of digits,
    never as N/A. *)
Theorem X_populated_documents (open_pdf : Populate.PdfReader)
  (walk : list (str * list str)) (d : Doc) :
  In d (Populate.documents_to_insert open_pdf walk) ->
  exists path n c,
    In path (Populate.pdf_files_of walk)
    /\ filename d = Some (Populate.basename path)
    /\ forallb Populate.not_slash (Populate.basename path) = true
    /\ page_number d = Some n /\ (1 <= n)%Z
    /\ content d = Some c /\ strip c = c
    /\ page_of d <> [] /\ forallb is_digit (page_of d) = true
    /\ page_of d <> L "N/A".
Proof.
  unfold Populate.documents_to_insert. intros H.
  apply in_flat_map in H. destruct H as [path [Hpath Hd]].
  unfold Populate.file_docs in Hd.
  destruct (open_pdf path) as [pages|e]; [|contradiction].
  destruct (pages_docs_fields _ _ _ _ Hd) as [Hf [n [text [Hn [Hb [Hc _]]]]]].
  assert (Hn1 : (1 <= n)%Z) by lia.
  destruct (page_of_digits d n Hn ltac:(lia)) as [Hp1 Hp2].
  exists path, n, (strip text).
  repeat split; auto.
  - apply basename_no_slash.
  - apply strip_idem.
  - apply digits_not_na. exact Hp2.
Qed.

Lemma take_while_rev_file (file rest : str) :
  forallb Populate.not_slash file = true ->
  (rest = [] \/ exists r, rest = "/"%char :: r) ->
  rev (take_while Populate.not_slash (rev file ++ rest)) = file.
Proof.
  intros Hf Hr. rewrite take_while_app by (apply forallb_rev; exact Hf).
  destruct Hr as [-> | [r ->]]; simpl; rewrite app_nil_r; apply rev_involutive.
Qed.

(** The file name stored for a page is the name of the directory entry:
    for an entry name without slash, the base name of the path joined
    from the directory and the name is the name itself; and every PDF
    path comes from an entry whose lower-cased name ends with [.pdf]. *)
Theorem X_stored_filename_is_entry_name (walk : list (str * list str))
  (path : str) :
  (forall root files file, In (root, files) walk -> In file files ->
     forallb Populate.not_slash file = true) ->
  In path (Populate.pdf_files_of walk) ->
  exists root files file,
    In (root, files) walk /\ In file files
    /\ endswith (L ".pdf") (lower file) = true
    /\ path = Populate.path_join root file
    /\ Populate.basename path = file.
Proof.
  intros Hns H. unfold Populate.pdf_files_of in H.
  apply in_flat_map in H. destruct H as [[root files] [Hw Hp]].
  simpl in Hp. apply in_map_iff in Hp. destruct Hp as [file [Hpath Hfile]].
  apply filter_In in Hfile. destruct Hfile as [Hin Hpdf].
  exists root, files, file. repeat split; auto.
  pose proof (Hns root files file Hw Hin) as Hf.
  subst path. unfold Populate.path_join, Populate.basename.
  assert (Hstart : startswith (L "/") file = false).
  { destruct file as [|c file]; [reflexivity|].
    simpl in Hf. apply andb_true_iff in Hf. destruct Hf as [Hc _].
    unfold Populate.not_slash in Hc. apply negb_true_iff in Hc.
    change (startswith (L "/") (c :: file))
      with (ascii_eqb "/"%char c && true).
    apply ascii_eqb_neq in Hc.
    assert (Hc' : ascii_eqb "/"%char c = false)
      by (apply ascii_eqb_neq; congruence).
    rewrite Hc'. reflexivity. }
  rewrite Hstart.
  destruct (is_empty root || endswith (L "/") root) eqn:Er.
  - rewrite rev_app_distr. apply take_while_rev_file; [exact Hf|].
    apply orb_true_iff in Er. destruct Er as [Er | Er].
    + left. destruct root; [reflexivity | discriminate].
    + right. unfold endswith in Er. apply startswith_iff in Er.
      destruct Er as [r Er]. exists r. exact Er.
  - rewrite !rev_app_distr. rewrite <- app_assoc.
    apply take_while_rev_file; [exact Hf|]. right. eexists. reflexivity.
Qed.

(** Once the connection is there, the old data is deleted before anything
    is read: [delete_many] is the first call, and the only one when that
    call fails, when no PDF is found or when no page has text.  Documents
    are inserted at most once, never an empty list, and the index is
    created only after the insertion and the index removal succeeded. *)
Theorem X_populate_clears_first (client : bool)
  (replies : Populate.StoreReplies) (open_pdf : Populate.PdfReader)
  (walk : list (str * list str)) :
  let calls := Populate.populate_database client replies open_pdf walk in
  (client = false -> calls = [])
  /\ (client = true -> exists rest, calls = Populate.DeleteMany :: rest)
  /\ (client = true ->
      Populate.delete_ok replies = false
      \/ Populate.documents_to_insert open_pdf walk = [] ->
      calls = [Populate.DeleteMany])
  /\ (forall docs, In (Populate.InsertMany docs) calls ->
        docs = Populate.documents_to_insert open_pdf walk /\ docs <> []
        /\ Populate.delete_ok replies = true)
  /\ (In Populate.CreateIndex calls ->
        Populate.insert_ok replies = true /\ Populate.drop_ok replies = true).
Proof.
  intros calls. subst calls. unfold Populate.populate_database.
  destruct client; simpl negb; cbv iota.
  2:{ split; [reflexivity|]. split; [discriminate|]. split; [discriminate|].
      split; [intros docs []|intros []]. }
  split; [discriminate|].
  destruct (Populate.delete_ok replies) eqn:Ed; simpl negb; cbv iota.
  2:{ split; [eexists; reflexivity|]. split; [reflexivity|].
      split; [intros docs [H | []]; discriminate|].
      intros [H | []]. discriminate. }
  assert (Hnone : Populate.pdf_files_of walk = [] ->
                  Populate.documents_to_insert open_pdf walk = []).
  { intros E. unfold Populate.documents_to_insert. rewrite E. reflexivity. }
  destruct (Populate.pdf_files_of walk) as [|f fs] eqn:Ef.
  { rewrite (Hnone eq_refl).
    split; [eexists; reflexivity|]. split; [reflexivity|].
    split; [intros docs [H | []]; discriminate|].
    intros [H | []]. discriminate. }
  destruct (Populate.documents_to_insert open_pdf walk) as [|d ds] eqn:Edocs.
  { split; [eexists; reflexivity|]. split; [reflexivity|].
    split; [intros docs [H | []]; discriminate|].
    intros [H | []]. discriminate. }
  split; [destruct (Populate.insert_ok replies), (Populate.drop_ok replies);
          eexists; reflexivity|].
  split.
  { intros _ [H | H]; discriminate. }
  split.
  - intros docs H.
    assert (Hd : docs = d :: ds).
    { destruct (Populate.insert_ok replies), (Populate.drop_ok replies);
        simpl in H;
        repeat (destruct H as [H | H]; try discriminate; try contradiction);
        inversion H; reflexivity. }
    subst docs. repeat split; [discriminate].
  - intros H.
    destruct (Populate.insert_ok replies), (Populate.drop_ok replies);
      simpl in H;
      repeat (destruct H as [H | H]; try discriminate; try contradiction);
      split; reflexivity.
Qed.

Lemma X_populated_documents_witness :
  Populate.documents_to_insert ex_reader ex_walk
  = [MkDoc (Some (L "GG.1508.PDF")) (Some 1%Z) (Some (L "Page one text."));
     MkDoc (Some (L "GG.1508.PDF")) (Some 3%Z) (Some (L "Third page."))]
  /\ exists path n c,
       In path (Populate.pdf_files_of ex_walk)
       /\ filename (MkDoc (Some (L "GG.1508.PDF")) (Some 3%Z)
                      (Some (L "Third page.")))
          = Some (Populate.basename path)
       /\ forallb Populate.not_slash (Populate.basename path) = true
       /\ page_number (MkDoc (Some (L "GG.1508.PDF")) (Some 3%Z)
                         (Some (L "Third page."))) = Some n
       /\ (1 <= n)%Z
       /\ content (MkDoc (Some (L "GG.1508.PDF")) (Some 3%Z)
                     (Some (L "Third page."))) = Some c
       /\ strip c = c
       /\ page_of (MkDoc (Some (L "GG.1508.PDF")) (Some 3%Z)
                     (Some (L "Third page."))) <> []
       /\ forallb is_digit
            (page_of (MkDoc (Some (L "GG.1508.PDF")) (Some 3%Z)
                        (Some (L "Third page.")))) = true
       /\ page_of (MkDoc (Some (L "GG.1508.PDF")) (Some 3%Z)
                     (Some (L "Third page."))) <> L "N/A".
Proof.
  assert (E : Populate.documents_to_insert ex_reader ex_walk
              = [MkDoc (Some (L "GG.1508.PDF")) (Some 1%Z)
                   (Some (L "Page one text."));
                 MkDoc (Some (L "GG.1508.PDF")) (Some 3%Z)
                   (Some (L "Third page."))])
    by (vm_compute; reflexivity).
  split; [exact E|].
  apply (X_populated_documents ex_reader ex_walk).
  rewrite E. right. left. reflexivity.
Defined.

Lemma X_stored_filename_is_entry_name_witness :
  exists root files file,
    In (root, files) ex_walk /\ In file files
    /\ endswith (L ".pdf") (lower file) = true
    /\ L "policy_documents/GG/GG.1508.PDF" = Populate.path_join root file
    /\ Populate.basename (L "policy_documents/GG/GG.1508.PDF") = file.
Proof.
  apply (X_stored_filename_is_entry_name ex_walk
           (L "policy_documents/GG/GG.1508.PDF")).
  - intros root files file [H | []] Hin. inversion H. subst.
    destruct Hin as [<- | [<- | []]]; vm_compute; reflexivity.
  - vm_compute. left. reflexivity.
Defined.

(** ** Texts of one line *)







(** ** The ceiling in snippet mode *)

Lemma pick_snippets_default_bounds (ord : SetOrder) (content question : str) :
  let snippets := _pick_snippets ord content question 3 800 in
  (Z.of_nat (length snippets) <= 3)%Z
  /\ Forall (fun s => (zlen s <= 800)%Z) snippets.
Proof.
  unfold _pick_snippets. destruct (is_empty content).
  - simpl. split; [lia | constructor].
  - set (phrases := ord _).
    pose proof (windows_loop_bound content 3 phrases []) as Hw.
    simpl in Hw. specialize (Hw ltac:(lia)).
    destruct (windows_loop content 3 phrases []) as [|w ws] eqn:Ew.
    + destruct (paras_of content) as [|p ps] eqn:Ep.
      * simpl. split; [lia | constructor].
      * split.
        -- rewrite length_map. apply slice_to_length. lia.
        -- apply Forall_map, Forall_forall. intros x _.
           apply slice_to_length. lia.
    + split.
      * rewrite length_map. exact Hw.
      * apply Forall_map, Forall_forall. intros x _.
        apply slice_to_length. lia.
Qed.

Lemma zlen_join_le (sep : str) (parts : list str) (bound : Z) :
  parts <> [] ->
  Forall (fun s => (zlen s <= bound)%Z) parts ->
  (zlen (join sep parts)
   <= Z.of_nat (length parts) * (bound + zlen sep) - zlen sep)%Z.
Proof.
  pose proof (zlen_nonneg sep) as Hsep.
  induction parts as [|p rest IH]; intros Hne H; [congruence|].
  inversion H as [|? ? Hp Hrest]. subst.
  destruct rest as [|r rest].
  - simpl join. simpl length. lia.
  - specialize (IH ltac:(discriminate) Hrest).
    change (join sep (p :: r :: rest))
      with (p ++ sep ++ join sep (r :: rest)).
    rewrite !zlen_app.
    change (length (p :: r :: rest)) with (S (length (r :: rest))).
    lia.
Qed.

(** With snippet retrieval on, a block is no longer than 2476 characters
    plus twice the length of the file name and the page text. *)
Lemma block_text_snippet_length (ord : SetOrder) (question : str) (doc : Doc) :
  (zlen (block_text ord true question doc)
   <= 2476 + 2 * (zlen (filename_of doc) + zlen (page_of doc)))%Z.
Proof.
  pose proof (zlen_nonneg (filename_of doc)) as Hf.
  pose proof (zlen_nonneg (page_of doc)) as Hp.
  unfold block_text, snippets_of. cbv zeta.
  pose proof (pick_snippets_default_bounds ord (content_of doc) question)
    as Hb. cbv zeta in Hb. destruct Hb as [Hn Hs].
  destruct (_pick_snippets ord (content_of doc) question 3 800)
    as [|s ss] eqn:E.
  - change (zlen (@nil ascii)) with 0%Z. lia.
  - change ([start_marker (filename_of doc) (page_of doc)] ++ (s :: ss)
              ++ [end_marker (filename_of doc) (page_of doc)])
      with (start_marker (filename_of doc) (page_of doc)
              :: ((s :: ss) ++ [end_marker (filename_of doc) (page_of doc)])).
    change (join nlnl (start_marker (filename_of doc) (page_of doc)
              :: ((s :: ss) ++ [end_marker (filename_of doc) (page_of doc)])))
      with (start_marker (filename_of doc) (page_of doc) ++ nlnl
              ++ join nlnl ((s :: ss)
                   ++ [end_marker (filename_of doc) (page_of doc)])).
    rewrite join_snoc_ne by discriminate.
    rewrite !zlen_app.
    pose proof (zlen_join_le nlnl (s :: ss) 800 ltac:(discriminate) Hs) as Hj.
    assert (Hk : (Z.of_nat (length (s :: ss)) <= 3)%Z) by exact Hn.
    assert (Hnl : zlen nlnl = 2%Z) by reflexivity.
    assert (Hsm : zlen (start_marker (filename_of doc) (page_of doc))
                  = (34 + zlen (filename_of doc) + zlen (page_of doc))%Z).
    { unfold start_marker. rewrite !zlen_app.
      change (zlen (L "--- START (Filename: ")) with 21%Z.
      change (zlen (L ", Page: ")) with 8%Z.
      change (zlen (L ") ---")) with 5%Z. lia. }
    assert (Hem : zlen (end_marker (filename_of doc) (page_of doc))
                  = (32 + zlen (filename_of doc) + zlen (page_of doc))%Z).
    { unfold end_marker. rewrite !zlen_app.
      change (zlen (L "--- END (Filename: ")) with 19%Z.
      change (zlen (L ", Page: ")) with 8%Z.
      change (zlen (L ") ---")) with 5%Z. lia. }
    rewrite Hnl in *. rewrite Hsm, Hem. nia.
Qed.

(** When every block of the remaining results fits, the loop accepts all
    the non-empty ones. *)
Lemma context_loop_all (ord : SetOrder) (use_snippets : bool)
  (question : str) (docs : list Doc) :
  forall (parts : list str) (total : Z),
    (total
     + zlen (concat (map (block_text ord use_snippets question) docs))
     <= max_total)%Z ->
    context_loop ord use_snippets question docs parts total
    = parts ++ filter truthy (map (block_text ord use_snippets question) docs).
Proof.
  induction docs as [|d rest IH]; intros parts total H.
  - simpl. rewrite app_nil_r. reflexivity.
  - rewrite context_loop_cons. simpl map in *. simpl concat in H.
    rewrite zlen_app in H.
    pose proof (zlen_nonneg
                  (concat (map (block_text ord use_snippets question) rest))).
    pose proof (zlen_nonneg (block_text ord use_snippets question d)).
    simpl filter.
    destruct (truthy (block_text ord use_snippets question d)) eqn:Eb.
    + assert (Hfit : (total + zlen (block_text ord use_snippets question d)
                      <=? max_total)%Z = true) by (apply Z.leb_le; lia).
      rewrite Hfit. simpl orb. cbv iota.
      rewrite IH by lia. rewrite <- app_assoc. reflexivity.
    + apply IH. apply truthy_false in Eb. rewrite Eb in H.
      unfold zlen in H at 1. simpl in H. lia.
Qed.

Lemma zlen_concat_le (l : list str) (bound : Z) :
  Forall (fun s => (zlen s <= bound)%Z) l ->
  (zlen (concat l) <= Z.of_nat (length l) * bound)%Z.
Proof.
  induction l as [|x l IH]; intros H.
  - unfold zlen. simpl. lia.
  - inversion H as [|? ? Hx Hl]. subst. specialize (IH Hl).
    simpl concat. rewrite zlen_app.
    change (length (x :: l)) with (S (length l)). lia.
Qed.

(** With snippet retrieval on, when the file name and the page text of
    each of the top seven results have at most 47 characters together,
    the ceiling rejects nothing: the context holds the blocks of all the
    top seven results that gave snippets, in relevance order. *)
Theorem X_snippet_mode_within_ceiling (ord : SetOrder) (question : str)
  (docs : list Doc) :
  (forall d, In d (firstn 7 docs) ->
     (zlen (filename_of d) + zlen (page_of d) <= 47)%Z) ->
  context_parts_of ord true question docs
  = filter truthy (map (block_text ord true question) (firstn 7 docs))
  /\ (zlen (concat (context_parts_of ord true question docs)) <= 18000)%Z.
Proof.
  intros H.
  assert (Hb : Forall (fun s => (zlen s <= 2570)%Z)
                 (map (block_text ord true question) (firstn 7 docs))).
  { apply Forall_map, Forall_forall. intros d Hd.
    pose proof (block_text_snippet_length ord question d).
    specialize (H d Hd). lia. }
  pose proof (zlen_concat_le _ _ Hb) as Hsum.
  rewrite length_map in Hsum.
  pose proof (firstn_le_length 7 docs) as H7.
  assert (Hall : (0 + zlen (concat (map (block_text ord true question)
                                      (firstn 7 docs))) <= max_total)%Z).
  { unfold max_total. nia. }
  pose proof (context_loop_all ord true question (firstn 7 docs) [] 0%Z Hall)
    as Hloop.
  cbn [app] in Hloop.
  pose proof (context_loop_within ord true question (firstn 7 docs) [] 0%Z
                eq_refl within_ceiling_nil) as [Hc _].
  split; [exact Hloop|].
  unfold context_parts_of. rewrite Hloop.
  rewrite Forall_forall in Hb.
  assert (Hb' : Forall (fun s => (zlen s <= 2570)%Z)
                  (filter truthy (map (block_text ord true question)
                                    (firstn 7 docs)))).
  { apply Forall_forall. intros x Hx. apply filter_In in Hx. apply Hb, Hx. }
  pose proof (zlen_concat_le _ _ Hb') as Hsum'.
  pose proof (length_filter_le truthy
                (map (block_text ord true question) (firstn 7 docs))) as Hl.
  rewrite length_map in Hl. nia.
Qed.

Lemma X_snippet_mode_within_ceiling_witness :
  context_parts_of insertion_order true ex_question [ex_doc; ex_doc_no_page]
  = filter truthy (map (block_text insertion_order true ex_question)
                     (firstn 7 [ex_doc; ex_doc_no_page])).
Proof.
  apply (X_snippet_mode_within_ceiling insertion_order ex_question
           [ex_doc; ex_doc_no_page]).
  intros d [<- | [<- | []]]; vm_compute; discriminate.
Defined.

(** ** Instances on the example data *)

Lemma X_tokens_are_lowercase_alnum_witness :
  In (L "notified") (_tokenize ex_question)
  /\ forallb is_tok_char (L "notified") = true.
Proof.
  assert (H : In (L "notified") (_tokenize ex_question)).
  { vm_compute. right. right. left. reflexivity. }
  split; [exact H|].
  exact (proj2 (proj1 (X_tokens_are_lowercase_alnum ex_question) _ H)).
Defined.

Lemma X_context_is_prefix_of_blocks_witness :
  context_parts_of insertion_order true ex_question
    [MkDoc (Some (L "F.pdf")) (Some 7%Z) None] = []
  /\ filter truthy
       (map (block_text insertion_order true ex_question)
          (firstn 7 [MkDoc (Some (L "F.pdf")) (Some 7%Z) None])) = [].
Proof.
  assert (H : context_parts_of insertion_order true ex_question
                [MkDoc (Some (L "F.pdf")) (Some 7%Z) None] = [])
    by (vm_compute; reflexivity).
  split; [exact H|].
  exact (proj2 (proj2 (X_context_is_prefix_of_blocks insertion_order true
                         ex_question
                         [MkDoc (Some (L "F.pdf")) (Some 7%Z) None])) H).
Defined.

Lemma X_questions_are_normalised_witness :
  In (L "1. Does the policy require X?")
     (extract_questions_from_pdf (Some [Some ex_pdf_text]))
  /\ strip (L "1. Does the policy require X?")
     = L "1. Does the policy require X?".
Proof.
  assert (H : In (L "1. Does the policy require X?")
                (extract_questions_from_pdf (Some [Some ex_pdf_text]))).
  { vm_compute. left. reflexivity. }
  split; [exact H|].
  exact (proj1 (proj1 X_questions_are_normalised _ _ H)).
Defined.

Lemma X_populate_clears_first_witness :
  Populate.populate_database true (Populate.MkReplies false true true)
    ex_reader ex_walk
  = [Populate.DeleteMany].
Proof.
  pose proof (X_populate_clears_first true
                (Populate.MkReplies false true true) ex_reader ex_walk) as H.
  cbv zeta in H.
  exact (proj1 (proj2 (proj2 H)) eq_refl (or_introl eq_refl)).
Defined.
